(** * Mission Control API server: a shallow embedding of
    [scripts/api_server.py] and the properties of its handlers.

    Handlers are functions in a small state-and-exception monad over a
    [world]: the two tables of the store, the wall clock, the source of
    fresh identifiers and the log of the statements sent to the store.
    What the program takes from outside its own code is a parameter of the
    handlers: the library functions [uuid.UUID] and [json.dumps], the
    value of the environment variable [MISSION_CONTROL_TOKEN], and which
    statements the driver and the store refuse with [asyncpg.DataError]. *)

From stdpp Require Import base numbers option list strings sorting pretty.
From Stdlib Require Import Ascii.

Set Warnings "-register-all".
Local Open Scope Z_scope.

(** ** Python strings *)

Module Py.

(** [c.lower()] on one ASCII letter. *)
Definition lower_char (c : ascii) : ascii :=
  let n := nat_of_ascii c in
  if bool_decide (65 ≤ n ≤ 90)%nat then ascii_of_nat (n + 32) else c.

(** [s.lower()] *)
Fixpoint lower (s : string) : string :=
  match s with
  | EmptyString => EmptyString
  | String c s' => String (lower_char c) (lower s')
  end.

(** [s.partition(" ")]: the text before the first space, the separator
    found (empty when there is none) and the text after it. *)
Fixpoint partition_space (s : string) : string * string * string :=
  match s with
  | EmptyString => ("", "", "")
  | String c s' =>
      if bool_decide (c = " "%char) then ("", " ", s')
      else let '(a, sep, b) := partition_space s' in (String c a, sep, b)
  end.

(** Truth value of a string and of an optional string ([None] and the
    empty string are false). *)
Definition truthy (s : string) : bool := negb (bool_decide (s = "")).

Definition truthy_opt (o : option string) : bool :=
  match o with
  | Some s => truthy s
  | None => false
  end.

(** [sep.join(l)] *)
Fixpoint join (sep : string) (l : list string) : string :=
  match l with
  | [] => ""
  | [x] => x
  | x :: l' => x +:+ sep +:+ join sep l'
  end.

(** [enumerate(l)], counting from [i]. *)
Fixpoint enumerate_from {A} (i : nat) (l : list A) : list (nat * A) :=
  match l with
  | [] => []
  | x :: l' => (i, x) :: enumerate_from (S i) l'
  end.

Definition enumerate {A} (l : list A) : list (nat * A) := enumerate_from 0 l.

(** A [dict] with string keys keeps its keys in insertion order;
    [d[k] = v] overwrites in place or appends. *)
Fixpoint setitem {V} (d : list (string * V)) (k : string) (v : V)
  : list (string * V) :=
  match d with
  | [] => [(k, v)]
  | (k', v') :: d' =>
      if bool_decide (k' = k) then (k, v) :: d' else (k', v') :: setitem d' k v
  end.

Definition keys {V} (d : list (string * V)) : list string := d.*1.
Definition values {V} (d : list (string * V)) : list V := d.*2.

End Py.

(** ** Data model *)

(** A timestamp, as a count of clock ticks.  The server renders timestamps
    with [isoformat()] and the store reads them back; the rendering is
    one-to-one and is left out. *)
Definition datetime := Z.

(** A parsed identifier: the 128-bit number of a [uuid.UUID]. *)
Definition uuid := N.

(** A JSON document, the payload of an activity event. *)
Inductive json :=
| JNull
| JBool (b : bool)
| JInt (z : Z)
| JStr (s : string)
| JList (l : list json)
| JDict (d : list (string * json)).

Definition dict := list (string * json).

(** A bound parameter of a statement. *)
Inductive value :=
| VNull
| VStr (s : string)
| VInt (z : Z)
| VTime (t : datetime)
| VUuid (u : uuid).

Global Instance value_eq_dec : EqDecision value.
Proof. solve_decision. Defined.

Module Task.
(** A row of [tasks]. *)
Record row := Row {
  id : uuid;
  title : string;
  description : option string;
  status : string;
  priority : Z;
  agent_id : option string;
  created_at : datetime;
  updated_at : datetime;
  completed_at : option datetime;
}.

Global Instance row_eq_dec : EqDecision row.
Proof. solve_decision. Defined.
End Task.

Module TaskUpdate.
(** The body of [PUT /kanban/tasks/{task_id}]. *)
Record t := Make {
  title : option string;
  description : option string;
  status : option string;
  priority : option Z;
  agent_id : option string;
  completed_at : option string;
}.
End TaskUpdate.

Module Event.
(** A row of [activity_events]; [data] is the stored text of the payload. *)
Record row := Row {
  id : uuid;
  event_type : string;
  source : option string;
  data : option string;
  created_at : datetime;
}.

Global Instance row_eq_dec : EqDecision row.
Proof. solve_decision. Defined.
End Event.

(** A statement as it reaches the store: its text and its bound parameters. *)
Record statement := Statement {
  sql : string;
  params : list value;
}.

Global Instance statement_eq_dec : EqDecision statement.
Proof. solve_decision. Defined.

(** The world a handler runs in.  [clock] gives the successive readings of
    the wall clock and [uuid4_stream] the successive results of
    [uuid.uuid4()]; [sent] is the log of statements, oldest first. *)
Record world := World {
  tasks : list Task.row;
  activity_events : list Event.row;
  clock : nat → datetime;
  clock_reads : nat;
  uuid4_stream : nat → uuid;
  uuid4_draws : nat;
  sent : list statement;
}.

Definition set_tasks (f : list Task.row → list Task.row) (w : world) : world :=
  World (f (tasks w)) (activity_events w) (clock w) (clock_reads w)
        (uuid4_stream w) (uuid4_draws w) (sent w).

Definition set_activity_events (f : list Event.row → list Event.row) (w : world)
  : world :=
  World (tasks w) (f (activity_events w)) (clock w) (clock_reads w)
        (uuid4_stream w) (uuid4_draws w) (sent w).

Definition tick_clock (w : world) : world :=
  World (tasks w) (activity_events w) (clock w) (S (clock_reads w))
        (uuid4_stream w) (uuid4_draws w) (sent w).

Definition draw_uuid4 (w : world) : world :=
  World (tasks w) (activity_events w) (clock w) (clock_reads w)
        (uuid4_stream w) (S (uuid4_draws w)) (sent w).

Definition log_statement (q : statement) (w : world) : world :=
  World (tasks w) (activity_events w) (clock w) (clock_reads w)
        (uuid4_stream w) (uuid4_draws w) (sent w ++ [q]).

(** ** Errors and the handler monad *)

Record HTTPException := Http {
  status_code : nat;
  detail : string;
}.

Global Instance HTTPException_eq_dec : EqDecision HTTPException.
Proof. solve_decision. Defined.

(** The error classes of the specification, by status code. *)
Inductive error_class :=
| InvalidArgument
| Unauthorized
| Forbidden
| NotFound
| OtherError.

Global Instance error_class_eq_dec : EqDecision error_class.
Proof. solve_decision. Defined.

Definition classify (e : HTTPException) : error_class :=
  match status_code e with
  | 400%nat => InvalidArgument
  | 401%nat => Unauthorized
  | 403%nat => Forbidden
  | 404%nat => NotFound
  | _ => OtherError
  end.

Inductive result (A : Type) :=
| Ok (a : A)
| Raise (e : HTTPException).
Global Arguments Ok {A} a.
Global Arguments Raise {A} e.

Definition M (A : Type) : Type := world → result A * world.

Definition ret {A} (a : A) : M A := λ w, (Ok a, w).
Definition raise {A} (e : HTTPException) : M A := λ w, (Raise e, w).
Definition bind {A B} (m : M A) (k : A → M B) : M B :=
  λ w, match m w with
       | (Ok a, w') => k a w'
       | (Raise e, w') => (Raise e, w')
       end.

Notation "'let*' x := m 'in' k" := (bind m (λ x, k))
  (at level 10, x pattern, m at level 100, k at level 200).

(** [datetime.now()] *)
Definition now : M datetime :=
  λ w, (Ok (clock w (clock_reads w)), tick_clock w).

(** [uuid.uuid4()] *)
Definition uuid4 : M uuid :=
  λ w, (Ok (uuid4_stream w (uuid4_draws w)), draw_uuid4 w).

(** What the handler answers with, and the class of its failure if any. *)
Definition failure {A} (r : result A * world) : option error_class :=
  match r.1 with
  | Ok _ => None
  | Raise e => Some (classify e)
  end.

(** ** The store *)

(** [ORDER BY priority DESC, created_at DESC] *)
Definition by_priority_created_desc (x y : Task.row) : Prop :=
  Task.priority y < Task.priority x
  ∨ (Task.priority x = Task.priority y ∧ Task.created_at y ≤ Task.created_at x).

Global Instance by_priority_created_desc_dec : RelDecision by_priority_created_desc.
Proof. intros x y. unfold by_priority_created_desc. apply _. Defined.

(** [ORDER BY created_at DESC] *)
Definition by_created_desc (x y : Event.row) : Prop :=
  Event.created_at y ≤ Event.created_at x.

Global Instance by_created_desc_dec : RelDecision by_created_desc.
Proof. intros x y. unfold by_created_desc. apply _. Defined.

(** [conn.fetch] and [conn.fetchrow]: the statement is sent and the store
    answers from its tables. *)
Definition conn_fetch {R} (q : statement) (answer : world → R) : M R :=
  λ w, (Ok (answer w), log_statement q w).

(** [conn.execute]: the statement is sent and the store changes its tables. *)
Definition conn_execute (q : statement) (effect : world → world) : M unit :=
  λ w, (Ok (), log_statement q (effect w)).

(** [SET k = v] on one row, for a statement that the store has accepted.
    The schema is not part of the program: an accepted value of the column's
    type is stored, and a value of another type is not. *)
Definition set_column (r : Task.row) (kv : string * value) : Task.row :=
  let '(k, v) := kv in
  let '(Task.Row i ti de st pr ag cr up co) := r in
  if bool_decide (k = "title") then
    match v with VStr s => Task.Row i s de st pr ag cr up co | _ => r end
  else if bool_decide (k = "description") then
    match v with VStr s => Task.Row i ti (Some s) st pr ag cr up co | _ => r end
  else if bool_decide (k = "status") then
    match v with VStr s => Task.Row i ti de s pr ag cr up co | _ => r end
  else if bool_decide (k = "priority") then
    match v with VInt z => Task.Row i ti de st z ag cr up co | _ => r end
  else if bool_decide (k = "agent_id") then
    match v with VStr s => Task.Row i ti de st pr (Some s) cr up co | _ => r end
  else if bool_decide (k = "completed_at") then
    match v with VTime t => Task.Row i ti de st pr ag cr up (Some t) | _ => r end
  else if bool_decide (k = "updated_at") then
    match v with VTime t => Task.Row i ti de st pr ag cr t co | _ => r end
  else r.

(** [UPDATE tasks SET ... WHERE id = $1] *)
Definition update_where_id (u : uuid) (updates : list (string * value))
    (rows : list Task.row) : list Task.row :=
  (λ r, if bool_decide (Task.id r = u) then foldl set_column r updates else r)
    <$> rows.

(** [SELECT * FROM tasks WHERE id = $1], read with [fetchrow]. *)
Definition task_by_id (u : uuid) (w : world) : option Task.row :=
  head (filter (λ r, Task.id r = u) (tasks w)).

(** A bound parameter that may be [None]. *)
Definition param (o : option string) : value :=
  match o with
  | Some s => VStr s
  | None => VNull
  end.

(** ** Routes *)

Inductive route :=
| GetHealth
| GetKanban
| PostKanbanTasks
| GetKanbanTask
| PutKanbanTask
| DeleteKanbanTask
| GetKanbanStream
| GetActivity
| PostActivity
| GetActivityStream
| GetAgentProfiles
| GetAgentProfile.

Definition path (r : route) : string :=
  match r with
  | GetHealth => "/health"
  | GetKanban => "/kanban"
  | PostKanbanTasks => "/kanban/tasks"
  | GetKanbanTask | PutKanbanTask | DeleteKanbanTask => "/kanban/tasks/{task_id}"
  | GetKanbanStream => "/kanban/stream"
  | GetActivity | PostActivity => "/activity"
  | GetActivityStream => "/activity/stream"
  | GetAgentProfiles => "/agent-profiles"
  | GetAgentProfile => "/agent-profiles/{agent_id}"
  end.

(** Whether the handler of the route declares [Depends(verify_token)]. *)
Definition depends_verify_token (r : route) : bool :=
  match r with
  | GetHealth => false
  | _ => true
  end.

(** The columns [update_task] can name in its statement. *)
Definition updatable_columns : list string :=
  ["title"; "description"; "status"; "priority"; "agent_id"; "completed_at";
   "updated_at"].

(** The text of the statement of [update_task] for a list of columns. *)
Definition set_clause (columns : list string) : string :=
  Py.join ", "
    ((λ ik : nat * string, ik.2 +:+ " = $" +:+ pretty (ik.1 + 2)%nat)
       <$> Py.enumerate columns).

Definition update_sql (columns : list string) : string :=
  "UPDATE tasks SET " +:+ set_clause columns +:+ " WHERE id = $1".

Section Server.

(** [MISSION_CONTROL_TOKEN], read once when the module is loaded. *)
Variable TOKEN : string.

(** [uuid.UUID(s)]; [None] stands for its [ValueError]. *)
Variable UUID : string → option uuid.

(** [json.dumps] on a payload. *)
Variable json_dumps : dict → string.

(** Whether the driver or the store refuses the parameters of a statement
    with [asyncpg.DataError].  The columns and their types are declared in
    the schema, which is not part of the program.  A statement that is
    refused is not run: the tables and the log of statements stay as they
    were. *)
Variable refused : statement → bool.

(** *** Authentication *)

Definition verify_token (authorization : option string) : M unit :=
  if negb (Py.truthy TOKEN) then ret ()
  else if negb (Py.truthy_opt authorization) then
    raise (Http 401 "Missing authorization header")
  else
    let '(scheme, _, token) := Py.partition_space (default "" authorization) in
    if negb (bool_decide (Py.lower scheme = "bearer")) then
      raise (Http 401 "Invalid authorization scheme")
    else if negb (bool_decide (token = TOKEN)) then
      raise (Http 403 "Invalid token")
    else ret ().

(** What runs before the handler of a route. *)
Definition dependencies (r : route) (authorization : option string) : M unit :=
  if depends_verify_token r then verify_token authorization else ret ().

(** *** Kanban *)

Definition get_kanban_tasks (status agent_id : option string)
  : M (list Task.row) :=
  if Py.truthy_opt status then
    conn_fetch
      (Statement "SELECT * FROM tasks WHERE status = $1 ORDER BY priority DESC, created_at DESC"
                 [param status])
      (λ w, merge_sort by_priority_created_desc
              (filter (λ r, Some (Task.status r) = status) (tasks w)))
  else if Py.truthy_opt agent_id then
    conn_fetch
      (Statement "SELECT * FROM tasks WHERE agent_id = $1 ORDER BY priority DESC, created_at DESC"
                 [param agent_id])
      (λ w, merge_sort by_priority_created_desc
              (filter (λ r, Task.agent_id r = agent_id) (tasks w)))
  else
    conn_fetch
      (Statement "SELECT * FROM tasks ORDER BY priority DESC, created_at DESC" [])
      (λ w, merge_sort by_priority_created_desc (tasks w)).

Definition get_task (task_id : string) : M Task.row :=
  match UUID task_id with
  | None => raise (Http 400 "Invalid task ID")
  | Some u =>
      let* row :=
        conn_fetch (Statement "SELECT * FROM tasks WHERE id = $1" [VUuid u])
          (task_by_id u) in
      match row with
      | None => raise (Http 404 "Task not found")
      | Some r => ret r
      end
  end.

(** The dictionary [updates] of [update_task], up to the test for an empty
    update. *)
Definition collect_updates (task : TaskUpdate.t) : M (list (string * value)) :=
  let updates : list (string * value) := [] in
  let updates :=
    match TaskUpdate.title task with
    | Some v => Py.setitem updates "title" (VStr v)
    | None => updates
    end in
  let updates :=
    match TaskUpdate.description task with
    | Some v => Py.setitem updates "description" (VStr v)
    | None => updates
    end in
  let* updates :=
    match TaskUpdate.status task with
    | Some v =>
        let updates := Py.setitem updates "status" (VStr v) in
        if bool_decide (v = "done")
           && negb (Py.truthy_opt (TaskUpdate.completed_at task))
        then let* t := now in ret (Py.setitem updates "completed_at" (VTime t))
        else ret updates
    | None => ret updates
    end in
  let updates :=
    match TaskUpdate.priority task with
    | Some v => Py.setitem updates "priority" (VInt v)
    | None => updates
    end in
  let updates :=
    match TaskUpdate.agent_id task with
    | Some v => Py.setitem updates "agent_id" (VStr v)
    | None => updates
    end in
  ret updates.

Definition update_task (task_id : string) (task : TaskUpdate.t) : M Task.row :=
  let* updates := collect_updates task in
  match updates with
  | [] => raise (Http 400 "No fields to update")
  | _ =>
      let* t := now in
      let updates := Py.setitem updates "updated_at" (VTime t) in
      let values := Py.values updates in
      match UUID task_id with
      | None => raise (Http 400 "Invalid task ID")
      | Some u =>
          let q := Statement (update_sql (Py.keys updates)) (VUuid u :: values) in
          if refused q then raise (Http 400 "Invalid task ID") else
          let* _ := conn_execute q (set_tasks (update_where_id u updates)) in
          let* row :=
            conn_fetch
              (Statement "SELECT * FROM tasks WHERE id = $1" [VUuid u])
              (task_by_id u) in
          match row with
          | None => raise (Http 404 "Task not found")
          | Some r => ret r
          end
      end
  end.

(** *** Activity *)

(** [Query(100, ge=1, le=1000)] on [limit]: the framework answers 422 to a
    limit out of range, before the body of the handler runs. *)
Definition check_limit (limit : nat) : M unit :=
  if bool_decide (1 ≤ limit ≤ 1000)%nat then ret ()
  else raise (Http 422 "limit out of range").

Definition get_activity (limit : nat) (event_type : option string)
  : M (list Event.row) :=
  let* _ := check_limit limit in
  if Py.truthy_opt event_type then
    conn_fetch
      (Statement "SELECT * FROM activity_events WHERE event_type = $1 ORDER BY created_at DESC LIMIT $2"
                 [param event_type; VInt (Z.of_nat limit)])
      (λ w, take limit
              (merge_sort by_created_desc
                 (filter (λ r, Some (Event.event_type r) = event_type)
                    (activity_events w))))
  else
    conn_fetch
      (Statement "SELECT * FROM activity_events ORDER BY created_at DESC LIMIT $1"
                 [VInt (Z.of_nat limit)])
      (λ w, take limit (merge_sort by_created_desc (activity_events w))).

(** [json.dumps(data) if data else None] *)
Definition dumps_if (data : option dict) : option string :=
  match data with
  | Some ((_ :: _) as d) => Some (json_dumps d)
  | _ => None
  end.

(** The INSERT of [log_activity]; the store stamps [created_at] itself. *)
Definition insert_activity_event (event_id : uuid) (event_type : string)
    (source data : option string) (w : world) : world :=
  let row := Event.Row event_id event_type source data
                       (clock w (clock_reads w)) in
  tick_clock (set_activity_events (λ l, l ++ [row]) w).

Definition log_activity (event_type : string) (data : option dict)
    (source : option string) : M uuid :=
  let* event_id := uuid4 in
  let* _ :=
    conn_execute
      (Statement "INSERT INTO activity_events (id, event_type, source, data) VALUES ($1, $2, $3, $4)"
                 [VUuid event_id; VStr event_type; param source;
                  param (dumps_if data)])
      (insert_activity_event event_id event_type source (dumps_if data)) in
  ret event_id.

(** *** The activity stream *)

(** The body of the loop over [rows]: [events] grows by the row, and
    [last_event_id] is assigned while it is still unset. *)
Definition scan_step (st : list Event.row * option datetime)
    (row : Event.row) : list Event.row * option datetime :=
  (st.1 ++ [row],
   match st.2 with
   | None => Some (Event.created_at row)
   | Some t => Some t
   end).

(** The loop over [rows] of one iteration. *)
Definition scan_rows (rows : list Event.row) (last_event_id : option datetime)
  : list Event.row * option datetime :=
  foldl scan_step ([], last_event_id) rows.

(** One iteration of the [while True] of [activity_event_generator]: the
    frames it yields, in order, and the value of [last_event_id] after it.
    [last_event_id] holds the rendering of a timestamp, never empty, so it
    is unset exactly when it is [None]. *)
Definition activity_tick (last_event_id : option datetime)
  : M (list Event.row * option datetime) :=
  let* rows :=
    match last_event_id with
    | None =>
        conn_fetch
          (Statement "SELECT * FROM activity_events ORDER BY created_at DESC LIMIT 100" [])
          (λ w, take 100 (merge_sort by_created_desc (activity_events w)))
    | Some t =>
        conn_fetch
          (Statement ("SELECT * FROM activity_events WHERE created_at > '"
                        +:+ pretty t +:+ "' ORDER BY created_at DESC") [])
          (λ w, merge_sort by_created_desc
                  (filter (λ r, t < Event.created_at r) (activity_events w)))
    end in
  let '(events, last_event_id) := scan_rows rows last_event_id in
  ret (reverse events, last_event_id).

(** The generator until it is cancelled: one iteration, then for each entry
    of [sleeps] what the other requests do to the world during
    [asyncio.sleep(1)], followed by the next iteration.  The result lists
    the frames of each iteration. *)
Fixpoint activity_event_generator_from (last_event_id : option datetime)
    (sleeps : list (world → world)) (w : world)
  : list (list Event.row) * world :=
  match activity_tick last_event_id w with
  | (Ok (frames, last_event_id'), w') =>
      match sleeps with
      | [] => ([frames], w')
      | during :: sleeps' =>
          let '(later, w'') :=
            activity_event_generator_from last_event_id' sleeps' (during w') in
          (frames :: later, w'')
      end
  | (Raise _, w') => ([], w')
  end.

Definition activity_event_generator := activity_event_generator_from None.

End Server.

(** ** Instances of the parameters *)

(** A reference [uuid.UUID(hex)] for strings of ASCII characters, after the
    library's constructor: the prefixes [urn:] and [uuid:] are deleted, then
    surrounding braces, then hyphens; what is left must be 32 characters
    that [int(hex, 16)] reads as a number of 128 bits.  [int] reads more
    than digits: blanks around the number, a sign, the prefix [0x], and
    single underscores between digits. *)
Module UuidLib.

(** [s.replace(sub, "")] for a non-empty [sub]; [skip] counts the
    characters of a match still to drop. *)
Fixpoint delete_go (sub : string) (skip : nat) (s : string) : string :=
  match s with
  | EmptyString => EmptyString
  | String c s' =>
      match skip with
      | S k => delete_go sub k s'
      | O =>
          if String.prefix sub s
          then delete_go sub (Nat.pred (String.length sub)) s'
          else String c (delete_go sub 0 s')
      end
  end.

Definition delete (sub s : string) : string := delete_go sub 0 s.

Definition is_brace (c : ascii) : bool :=
  bool_decide (c = "{"%char) || bool_decide (c = "}"%char).

Fixpoint lstrip_braces (s : string) : string :=
  match s with
  | EmptyString => EmptyString
  | String c s' => if is_brace c then lstrip_braces s' else s
  end.

(** [s.strip("{}")] *)
Definition strip_braces (s : string) : string :=
  String.rev (lstrip_braces (String.rev (lstrip_braces s))).

Fixpoint delete_hyphens (s : string) : string :=
  match s with
  | EmptyString => EmptyString
  | String c s' =>
      if bool_decide (c = "-"%char) then delete_hyphens s'
      else String c (delete_hyphens s')
  end.

Definition hex_digit (c : ascii) : option N :=
  let n := N_of_ascii c in
  if bool_decide (48 ≤ n ≤ 57)%N then Some (n - 48)%N
  else if bool_decide (97 ≤ n ≤ 102)%N then Some (n - 87)%N
  else if bool_decide (65 ≤ n ≤ 70)%N then Some (n - 55)%N
  else None.

(** White space for [int], among ASCII characters. *)
Definition is_space (c : ascii) : bool :=
  let n := N_of_ascii c in
  bool_decide (9 ≤ n ≤ 13)%N || bool_decide (28 ≤ n ≤ 32)%N.

Fixpoint lstrip_space (s : string) : string :=
  match s with
  | EmptyString => EmptyString
  | String c s' => if is_space c then lstrip_space s' else s
  end.

Definition strip_space (s : string) : string :=
  String.rev (lstrip_space (String.rev (lstrip_space s))).

(** The digits of a number in base 16; [under] tells that the character
    before was an underscore, which may stand between two digits only. *)
Fixpoint digits16 (acc : N) (under : bool) (s : string) : option N :=
  match s with
  | EmptyString => if under then None else Some acc
  | String c s' =>
      if bool_decide (c = "_"%char) then
        if under then None else digits16 acc true s'
      else
        match hex_digit c with
        | Some d => digits16 (16 * acc + d)%N false s'
        | None => None
        end
  end.

(** An optional sign. *)
Definition read_sign (s : string) : bool * string :=
  match s with
  | String c s' =>
      if bool_decide (c = "+"%char) then (false, s')
      else if bool_decide (c = "-"%char) then (true, s')
      else (false, s)
  | EmptyString => (false, s)
  end.

(** An optional prefix [0x] or [0X], and one underscore after it. *)
Definition read_prefix (s : string) : string :=
  match s with
  | String c (String x s') =>
      if bool_decide (c = "0"%char)
         && (bool_decide (x = "x"%char) || bool_decide (x = "X"%char))
      then match s' with
           | String u s'' => if bool_decide (u = "_"%char) then s'' else s'
           | EmptyString => s'
           end
      else s
  | _ => s
  end.

(** [int(s, 16)]; [None] stands for its [ValueError]. *)
Definition int16 (s : string) : option Z :=
  let '(negative, s) := read_sign (strip_space s) in
  match read_prefix s with
  | EmptyString => None
  | String c _ as digits =>
      if bool_decide (c = "_"%char) then None
      else (λ n, if negative : bool then - Z.of_N n else Z.of_N n)
             <$> digits16 0 false digits
  end.

Definition UUID (hex : string) : option uuid :=
  let hex := delete "uuid:" (delete "urn:" hex) in
  let hex := delete_hyphens (strip_braces hex) in
  if bool_decide (String.length hex = 32%nat) then
    match int16 hex with
    | Some z => if bool_decide (0 ≤ z < 2 ^ 128) then Some (Z.to_N z) else None
    | None => None
    end
  else None.

End UuidLib.

(** A reference [json.dumps] with the library's default separators, for
    payloads of integers, booleans, nulls, lists, dictionaries and strings
    that need no escape. *)
Module JsonLib.

Definition quote : ascii := ascii_of_nat 34.

Definition quoted (s : string) : string :=
  String quote (s +:+ String quote EmptyString).

Fixpoint dumps (j : json) : string :=
  match j with
  | JNull => "null"
  | JBool true => "true"
  | JBool false => "false"
  | JInt z => pretty z
  | JStr s => quoted s
  | JList l => "[" +:+ Py.join ", " (map dumps l) +:+ "]"
  | JDict d =>
      "{" +:+ Py.join ", "
                (map (λ kv : string * json,
                        quoted kv.1 +:+ ": " +:+ dumps kv.2) d)
          +:+ "}"
  end.

Definition json_dumps (d : dict) : string := dumps (JDict d).

End JsonLib.

(** A reference for what the driver and the store refuse: a number that
    does not fit 64 bits and a text that holds the character of code 0,
    which no column can take.  What else is refused depends on the schema. *)
Module Store.

Fixpoint has_nul (s : string) : bool :=
  match s with
  | EmptyString => false
  | String c s' => bool_decide (c = ascii_of_nat 0) || has_nul s'
  end.

Definition refused_value (v : value) : bool :=
  match v with
  | VInt z => negb (bool_decide (- 2 ^ 63 ≤ z < 2 ^ 63))
  | VStr s => has_nul s
  | _ => false
  end.

Definition refused (q : statement) : bool := existsb refused_value (params q).

End Store.

(** ** Notions of the specification *)

(** The header [h] names a bearer scheme (in any letter case) and carries
    [token]: the scheme, a space and the token, or the scheme alone with an
    empty token. *)
Definition bearer_header (h token : string) : Prop :=
  ∃ scheme, Py.lower scheme = "bearer"
            ∧ (h = scheme +:+ " " +:+ token ∨ (h = scheme ∧ token = "")).

(** The filter of a List request: the status filter when a non-empty status
    is given, otherwise the agent filter when a non-empty agent is given,
    otherwise every task. *)
Definition matches_filter (status agent_id : option string) (r : Task.row)
  : Prop :=
  match status with
  | Some (String _ _ as s) => Task.status r = s
  | _ =>
      match agent_id with
      | Some (String _ _ as a) => Task.agent_id r = Some a
      | _ => True
      end
  end.

Global Instance matches_filter_dec status agent_id r :
  Decision (matches_filter status agent_id r).
Proof.
  unfold matches_filter.
  destruct status as [[|??]|], agent_id as [[|??]|]; apply _.
Defined.

(** Whether an update stamps [completed_at] itself: it carries the status
    [done] and no (non-empty) [completed_at]. *)
Definition stamps (task : TaskUpdate.t) : bool :=
  bool_decide (TaskUpdate.status task = Some "done")
  && negb (Py.truthy_opt (TaskUpdate.completed_at task)).

(** What an update request says about columns, values apart: which fields
    are present and whether [completed_at] is stamped. *)
Record shape := Shape {
  has_title : bool;
  has_description : bool;
  has_status : bool;
  has_stamp : bool;
  has_priority : bool;
  has_agent_id : bool;
}.

Definition present {A} (o : option A) : bool :=
  match o with
  | Some _ => true
  | None => false
  end.

Definition shape_of (task : TaskUpdate.t) : shape :=
  Shape (present (TaskUpdate.title task)) (present (TaskUpdate.description task))
        (present (TaskUpdate.status task)) (stamps task)
        (present (TaskUpdate.priority task)) (present (TaskUpdate.agent_id task)).

(** The columns of the statement for a shape, in the order of the text. *)
Definition update_columns (s : shape) : list string :=
  (if has_title s then ["title"] else [])
  ++ (if has_description s then ["description"] else [])
  ++ (if has_status s then ["status"] else [])
  ++ (if has_stamp s then ["completed_at"] else [])
  ++ (if has_priority s then ["priority"] else [])
  ++ (if has_agent_id s then ["agent_id"] else [])
  ++ ["updated_at"].

(** The entries an update request puts in [updates] before [updated_at],
    when the clock reads [t] at the stamp. *)
Definition supplied (task : TaskUpdate.t) (t : datetime)
  : list (string * value) :=
  option_list ((λ v, ("title", VStr v)) <$> TaskUpdate.title task)
  ++ option_list ((λ v, ("description", VStr v)) <$> TaskUpdate.description task)
  ++ option_list ((λ v, ("status", VStr v)) <$> TaskUpdate.status task)
  ++ (if stamps task then [("completed_at", VTime t)] else [])
  ++ option_list ((λ v, ("priority", VInt v)) <$> TaskUpdate.priority task)
  ++ option_list ((λ v, ("agent_id", VStr v)) <$> TaskUpdate.agent_id task).

(** A well-formed identifier: the canonical text of a UUID, hexadecimal
    digits in groups of 8, 4, 4, 4 and 12 with a hyphen between groups. *)
Definition is_hex (c : ascii) : bool :=
  match UuidLib.hex_digit c with
  | Some _ => true
  | None => false
  end.

Definition hyphen_at (i : nat) : bool :=
  (i =? 8)%nat || (i =? 13)%nat || (i =? 18)%nat || (i =? 23)%nat.

Fixpoint canonical_from (i : nat) (s : string) : bool :=
  match s with
  | EmptyString => (i =? 36)%nat
  | String c s' =>
      (i <? 36)%nat
      && (if hyphen_at i then bool_decide (c = "-"%char) else is_hex c)
      && canonical_from (S i) s'
  end.

Definition well_formed_uuid (s : string) : bool := canonical_from 0 s.

(** Every character of the string passes the test. *)
Fixpoint all_chars (P : ascii → bool) (s : string) : bool :=
  match s with
  | EmptyString => true
  | String c s' => P c && all_chars P s'
  end.

(** Oldest first. *)
Definition by_created_asc (x y : Event.row) : Prop :=
  Event.created_at x ≤ Event.created_at y.

(** ** Scenarios *)

Module Scenario.

Definition TOKEN : string := "s3cret".

(** A store with no rows, a clock that reads 1, 2, 3, ... and identifiers
    100, 101, ... *)
Definition empty : world :=
  World [] [] (λ n, Z.of_nat n + 1) 0 (λ n, N.of_nat n + 100)%N 0 [].

(** Another request appends an event with no payload. *)
Definition append (event_type : string) (w : world) : world :=
  (log_activity JsonLib.json_dumps event_type None None w).2.

Definition E1 : Event.row := Event.Row 100%N "e1" None None 1.
Definition E2 : Event.row := Event.Row 101%N "e2" None None 2.
Definition E3 : Event.row := Event.Row 102%N "e3" None None 3.
Definition E4 : Event.row := Event.Row 103%N "e4" None None 4.

(** E1, E2 and E3 are appended before the client connects. *)
Definition three_events : world := append "e3" (append "e2" (append "e1" empty)).

(** The same three events, stored in another order. *)
Definition three_events_shuffled : world :=
  set_activity_events (λ _, [E2; E3; E1]) three_events.

Definition task_id : string := "00000000-0000-0000-0000-000000000007".

Definition fix_bug : Task.row :=
  Task.Row 7%N "Fix bug" None "backlog" 5 None 1 1 None.

(** One task, created at 1; the clock then reads 10, 20, 30, ... *)
Definition board : world :=
  World [fix_bug] [] (λ n, Z.of_nat n * 10 + 10) 0
        (λ n, N.of_nat n + 100)%N 0 [].

Definition set_done : TaskUpdate.t :=
  TaskUpdate.Make None None (Some "done") None None None.

Definition set_done_at (completed_at : string) : TaskUpdate.t :=
  TaskUpdate.Make None None (Some "done") None None (Some completed_at).

(** The board after one, and after two, requests that set the status to
    [done]. *)
Definition done_once : world :=
  (update_task UuidLib.UUID Store.refused task_id set_done board).2.

Definition done_twice : world :=
  (update_task UuidLib.UUID Store.refused task_id set_done done_once).2.

End Scenario.

(** ** The other handlers *)

Module TaskCreate.
(** The body of [POST /kanban/tasks], as the handler receives it. *)
Record t := Make {
  title : string;
  description : option string;
  status : string;
  priority : Z;
  agent_id : option string;
}.
End TaskCreate.

Module TaskFrame.
(** One task in a frame of the task stream: the row without [created_at]
    and [completed_at]. *)
Record t := Make {
  id : uuid;
  title : string;
  description : option string;
  status : string;
  priority : Z;
  agent_id : option string;
  updated_at : datetime;
}.
End TaskFrame.

Module AgentProfile.
(** A row of [agent_profiles]; [config] is the stored text. *)
Record row := Row {
  agent_id : string;
  name : string;
  description : option string;
  config : option string;
  created_at : datetime;
  updated_at : datetime;
}.

Global Instance row_eq_dec : EqDecision row.
Proof. solve_decision. Defined.
End AgentProfile.

(** The answer of [delete_task]. *)
Record Deleted := DeletedResponse {
  success : bool;
  deleted_id : string;
}.

(** Modelled from the spec: the column defaults of [tasks], which are in the
    schema and not in the source.  The INSERT of [create_task] names six
    columns; the store fills [created_at] and [updated_at] with one reading
    of its clock and leaves [completed_at] null. *)
Definition insert_task (task_id : uuid) (task : TaskCreate.t) (w : world)
  : world :=
  let t := clock w (clock_reads w) in
  let row := Task.Row task_id (TaskCreate.title task)
                      (TaskCreate.description task) (TaskCreate.status task)
                      (TaskCreate.priority task) (TaskCreate.agent_id task)
                      t t None in
  tick_clock (set_tasks (λ l, l ++ [row]) w).

(** [DELETE FROM tasks WHERE id = $1] *)
Definition delete_where_id (u : uuid) (rows : list Task.row) : list Task.row :=
  filter (λ r, Task.id r ≠ u) rows.

(** The status the store returns for the DELETE: the number of rows it
    removed. *)
Definition delete_status (u : uuid) (w : world) : string :=
  "DELETE " +:+ pretty (length (filter (λ r, Task.id r = u) (tasks w))).

(** [conn.execute], with the status string of the command. *)
Definition conn_execute_status (q : statement) (status : world → string)
    (effect : world → world) : M string :=
  λ w, (Ok (status w), log_statement q (effect w)).

(** [ORDER BY updated_at DESC] *)
Definition by_updated_desc (x y : Task.row) : Prop :=
  Task.updated_at y ≤ Task.updated_at x.

Global Instance by_updated_desc_dec : RelDecision by_updated_desc.
Proof. intros x y. unfold by_updated_desc. apply _. Defined.

(** The dictionary of one task in [task_event_generator]. *)
Definition task_frame (row : Task.row) : TaskFrame.t :=
  TaskFrame.Make (Task.id row) (Task.title row) (Task.description row)
                 (Task.status row) (Task.priority row) (Task.agent_id row)
                 (Task.updated_at row).

Section Handlers.

Variable UUID : string → option uuid.

Definition create_task (task : TaskCreate.t) : M Task.row :=
  let* task_id := uuid4 in
  let* _ :=
    conn_execute
      (Statement "INSERT INTO tasks (id, title, description, status, priority, agent_id) VALUES ($1, $2, $3, $4, $5, $6)"
                 [VUuid task_id; VStr (TaskCreate.title task);
                  param (TaskCreate.description task);
                  VStr (TaskCreate.status task);
                  VInt (TaskCreate.priority task);
                  param (TaskCreate.agent_id task)])
      (insert_task task_id task) in
  let* row :=
    conn_fetch (Statement "SELECT * FROM tasks WHERE id = $1" [VUuid task_id])
      (task_by_id task_id) in
  match row with
  | None => raise (Http 500 "Internal Server Error")
  | Some r => ret r
  end.

Definition delete_task (task_id : string) : M Deleted :=
  match UUID task_id with
  | None => raise (Http 400 "Invalid task ID")
  | Some u =>
      let* result :=
        conn_execute_status
          (Statement "DELETE FROM tasks WHERE id = $1" [VUuid u])
          (delete_status u)
          (set_tasks (delete_where_id u)) in
      if bool_decide (result = "DELETE 0")
      then raise (Http 404 "Task not found")
      else ret (DeletedResponse true task_id)
  end.

(** One iteration of the [while True] of [task_event_generator]: the payload
    of the one frame it yields. *)
Definition task_tick : M (list TaskFrame.t) :=
  let* rows :=
    conn_fetch
      (Statement "SELECT * FROM tasks ORDER BY updated_at DESC LIMIT 100" [])
      (λ w, take 100 (merge_sort by_updated_desc (tasks w))) in
  ret (task_frame <$> rows).

(** The generator until it is cancelled, as for the activity stream: the
    payload of the frame of each iteration. *)
Fixpoint task_event_generator (sleeps : list (world → world)) (w : world)
  : list (list TaskFrame.t) * world :=
  match task_tick w with
  | (Ok frame, w') =>
      match sleeps with
      | [] => ([frame], w')
      | during :: sleeps' =>
          let '(later, w'') := task_event_generator sleeps' (during w') in
          (frame :: later, w'')
      end
  | (Raise _, w') => ([], w')
  end.

End Handlers.

Section AgentProfiles.

(** The table [agent_profiles]: no handler writes to it. *)
Variable agent_profiles : list AgentProfile.row.

(** The order of the store on names, for [ORDER BY name]. *)
Variable collation : relation string.
Context `{!RelDecision collation}.

(** What the store refuses with [asyncpg.DataError], as for the tasks. *)
Variable refused : statement → bool.

Definition by_name (x y : AgentProfile.row) : Prop :=
  collation (AgentProfile.name x) (AgentProfile.name y).

Global Instance by_name_dec : RelDecision by_name.
Proof. intros x y. unfold by_name. apply _. Defined.

Definition get_agent_profiles : M (list AgentProfile.row) :=
  conn_fetch (Statement "SELECT * FROM agent_profiles ORDER BY name" [])
    (λ _, merge_sort by_name agent_profiles).

(** Nothing catches the [asyncpg.DataError] of a refused identifier: the
    framework answers 500. *)
Definition get_agent_profile (agent_id : string) : M AgentProfile.row :=
  let q := Statement "SELECT * FROM agent_profiles WHERE agent_id = $1"
                     [VStr agent_id] in
  if refused q then raise (Http 500 "Internal Server Error") else
  let* row :=
    conn_fetch q
      (λ _, head (filter (λ r, AgentProfile.agent_id r = agent_id)
                    agent_profiles)) in
  match row with
  | None => raise (Http 404 "Agent profile not found")
  | Some r => ret r
  end.

End AgentProfiles.

(** The operations on the store: the bodies of the handlers and one
    iteration of each stream. *)
Inductive operation :=
| OpList (status agent_id : option string)
| OpCreate (task : TaskCreate.t)
| OpGet (task_id : string)
| OpUpdate (task_id : string) (task : TaskUpdate.t)
| OpDelete (task_id : string)
| OpActivity (limit : nat) (event_type : option string)
| OpAppend (event_type : string) (data : option dict) (source : option string)
| OpTaskTick
| OpActivityTick (last_event_id : option datetime).

Definition discard {A} (m : M A) : M unit := let* _ := m in ret ().

Definition perform (UUID : string → option uuid)
    (refused : statement → bool) (json_dumps : dict → string)
    (op : operation) : M unit :=
  match op with
  | OpList status agent_id => discard (get_kanban_tasks status agent_id)
  | OpCreate task => discard (create_task task)
  | OpGet task_id => discard (get_task UUID task_id)
  | OpUpdate task_id task => discard (update_task UUID refused task_id task)
  | OpDelete task_id => discard (delete_task UUID task_id)
  | OpActivity limit event_type => discard (get_activity limit event_type)
  | OpAppend event_type data source =>
      discard (log_activity json_dumps event_type data source)
  | OpTaskTick => discard task_tick
  | OpActivityTick last_event_id => discard (activity_tick last_event_id)
  end.

(** The operations that write to [tasks], and the one that writes to
    [activity_events]. *)
Definition writes_tasks (op : operation) : bool :=
  match op with
  | OpCreate _ | OpUpdate _ _ | OpDelete _ => true
  | _ => false
  end.

Definition writes_events (op : operation) : bool :=
  match op with
  | OpAppend _ _ _ => true
  | _ => false
  end.

(** The statement texts that are constants of the source. *)
Definition fixed_statements : list string :=
  ["SELECT * FROM tasks WHERE status = $1 ORDER BY priority DESC, created_at DESC";
   "SELECT * FROM tasks WHERE agent_id = $1 ORDER BY priority DESC, created_at DESC";
   "SELECT * FROM tasks ORDER BY priority DESC, created_at DESC";
   "INSERT INTO tasks (id, title, description, status, priority, agent_id) VALUES ($1, $2, $3, $4, $5, $6)";
   "SELECT * FROM tasks WHERE id = $1";
   "DELETE FROM tasks WHERE id = $1";
   "SELECT * FROM activity_events WHERE event_type = $1 ORDER BY created_at DESC LIMIT $2";
   "SELECT * FROM activity_events ORDER BY created_at DESC LIMIT $1";
   "INSERT INTO activity_events (id, event_type, source, data) VALUES ($1, $2, $3, $4)";
   "SELECT * FROM tasks ORDER BY updated_at DESC LIMIT 100";
   "SELECT * FROM activity_events ORDER BY created_at DESC LIMIT 100"].

(** The text of the stream's query once the watermark is set: the only text
    with a value spliced in, the rendering of the watermark. *)
Definition since_sql (t : datetime) : string :=
  "SELECT * FROM activity_events WHERE created_at > '" +:+ pretty t
    +:+ "' ORDER BY created_at DESC".



(** The filter of an activity List request: the event type when a non-empty
    one is given, otherwise none. *)
Definition matches_type (event_type : option string) (r : Event.row) : Prop :=
  match event_type with
  | Some (String _ _ as s) => Event.event_type r = s
  | _ => True
  end.

Global Instance matches_type_dec event_type r :
  Decision (matches_type event_type r).
Proof. unfold matches_type. destruct event_type as [[|??]|]; apply _. Defined.

Module Cases.

(** Two tasks, updated at 5 and at 2; the clock then reads 10, 20, 30, ... *)
Definition write_docs : Task.row :=
  Task.Row 8%N "Write docs" (Some "readme") "todo" 3 (Some "agent-a") 2 2 None.

Definition fix_bug : Task.row :=
  Task.Row 7%N "Fix bug" None "backlog" 5 None 1 5 None.

Definition board : world :=
  World [write_docs; fix_bug] [] (λ n, Z.of_nat n * 10 + 10) 0
        (λ n, N.of_nat n + 100)%N 0 [].

Definition id7 : string := "00000000-0000-0000-0000-000000000007".
Definition id8 : string := "00000000-0000-0000-0000-000000000008".

Definition rename : TaskUpdate.t :=
  TaskUpdate.Make (Some "Fix the bug") None None (Some 9) None None.




(** Two events, stored at 1 and 2 by a clock that goes on to read 3. *)
Definition two_events : world :=
  (log_activity JsonLib.json_dumps "b" None None
     (log_activity JsonLib.json_dumps "a" None None
        (World [] [] (λ n, Z.of_nat n + 1) 0 (λ n, N.of_nat n + 100)%N 0 [])).2).2.

(** An identifier that holds the character of code 0. *)
Definition nul : string := String (ascii_of_nat 0) EmptyString.

Definition profiles : list AgentProfile.row :=
  [AgentProfile.Row "b2" "Zed" None None 1 1;
   AgentProfile.Row "a1" "Amy" None None 2 2].

End Cases.

(** ** Properties *)

(** *** Strings *)

Lemma string_app_empty_r s : s +:+ "" = s.
Proof.
  induction s as [|c s IH]; [done|].
  change (String c (s +:+ "") = String c s). by rewrite IH.
Qed.

Lemma lower_char_space c : c = " "%char → Py.lower_char c = " "%char.
Proof. by intros ->. Qed.

(** Closes the case where a character of a scheme is a space although it
    lowers to a letter. *)
Ltac scheme_has_no_space :=
  repeat (case_bool_decide;
          [match goal with
           | Hc : _ = " "%char |- _ =>
               apply lower_char_space in Hc; congruence
           end|]).

Lemma partition_space_join s :
  let '(a, sep, b) := Py.partition_space s in
  s = a +:+ sep +:+ b ∧ (sep = " " ∨ (sep = "" ∧ b = "")).
Proof.
  induction s as [|c s IH]; simpl.
  - split; [done|by right].
  - case_bool_decide as Hc.
    + subst c. split; [done|by left].
    + destruct (Py.partition_space s) as [[a sep] b].
      destruct IH as [-> Hsep]. done.
Qed.

(** A scheme that lowers to a word without a space has no space itself, so
    [partition] cuts right after it. *)
Lemma partition_space_scheme scheme rest :
  Py.lower scheme = "bearer" →
  Py.partition_space (scheme +:+ " " +:+ rest) = (scheme, " ", rest).
Proof.
  intros H.
  do 7 (destruct scheme as [|? scheme]; simplify_eq/=).
  scheme_has_no_space. done.
Qed.

Lemma partition_space_bare scheme :
  Py.lower scheme = "bearer" →
  Py.partition_space scheme = (scheme, "", "").
Proof.
  intros H.
  do 7 (destruct scheme as [|? scheme]; simplify_eq/=).
  scheme_has_no_space. done.
Qed.

Lemma bearer_header_partition h token :
  bearer_header h token ↔
  Py.lower (Py.partition_space h).1.1 = "bearer" ∧ (Py.partition_space h).2 = token.
Proof.
  split.
  - intros (scheme & Hs & [-> | [-> ->]]).
    + by rewrite partition_space_scheme.
    + by rewrite partition_space_bare.
  - intros [Hs <-]. pose proof (partition_space_join h) as Hj.
    destruct (Py.partition_space h) as [[a sep] b]; simpl in *.
    destruct Hj as [-> [-> | [-> ->]]]; exists a; split; auto.
    right. split; [|done]. change (a +:+ "" = a). apply string_app_empty_r.
Qed.

Lemma truthy_true s : Py.truthy s = true ↔ s ≠ "".
Proof. unfold Py.truthy. case_bool_decide; naive_solver. Qed.

(** *** Authentication *)

(** C8. On every route other than [/health] the token check runs before
    the handler and leaves the world alone.  With an empty configured token
    every request passes.  With a token configured: a missing (absent or
    empty) header, and a header that names no bearer scheme, fail with
    Unauthorized; a bearer header whose token differs from the configured
    one fails with Forbidden; a bearer header with exactly the configured
    token passes. *)
Theorem verify_token_gate (TOKEN : string) (r : route)
    (authorization : option string) (w : world) :
  path r ≠ "/health" →
  (dependencies TOKEN r authorization w).2 = w
  ∧ (TOKEN = "" → (dependencies TOKEN r authorization w).1 = Ok ())
  ∧ (TOKEN ≠ "" →
     (authorization = None ∨ authorization = Some "" →
      failure (dependencies TOKEN r authorization w) = Some Unauthorized)
     ∧ (∀ h, authorization = Some h → h ≠ "" →
             (∀ token, ¬ bearer_header h token) →
             failure (dependencies TOKEN r authorization w) = Some Unauthorized)
     ∧ (∀ h token, authorization = Some h → bearer_header h token →
                   token ≠ TOKEN →
                   failure (dependencies TOKEN r authorization w) = Some Forbidden)
     ∧ (∀ h, authorization = Some h → bearer_header h TOKEN →
             (dependencies TOKEN r authorization w).1 = Ok ())).
Proof.
  intros Hr.
  assert (dependencies TOKEN r authorization w = verify_token TOKEN authorization w)
    as -> by (by destruct r).
  unfold verify_token.
  destruct (Py.truthy TOKEN) eqn:HT; simpl.
  - apply truthy_true in HT. split_and!.
    + destruct (Py.truthy_opt authorization); simpl; [|done].
      destruct (Py.partition_space _) as [[scheme sep] token].
      repeat (case_bool_decide; simpl); done.
    + done.
    + intros _. split_and!.
      * by intros [-> | ->].
      * intros h -> Hh Hnb. simpl.
        apply truthy_true in Hh as ->. simpl.
        destruct (Py.partition_space h) as [[scheme sep] token] eqn:Hp.
        case_bool_decide as Hs; simpl; [|done].
        destruct (Hnb token). apply bearer_header_partition.
        by rewrite Hp.
      * intros h token -> [Hs Ht]%bearer_header_partition Hne. simpl.
        assert (h ≠ "") as ->%truthy_true by (by intros ->).
        simpl. destruct (Py.partition_space h) as [[scheme sep] token'].
        simpl in *. subst token'.
        rewrite !bool_decide_true by done. simpl.
        by rewrite bool_decide_false by done.
      * intros h -> [Hs Ht]%bearer_header_partition. simpl.
        assert (h ≠ "") as ->%truthy_true by (by intros ->).
        simpl. destruct (Py.partition_space h) as [[scheme sep] token'].
        simpl in *. subst token'.
        by rewrite !bool_decide_true by done.
  - assert (TOKEN = "") as ->.
    { unfold Py.truthy in HT. by case_bool_decide. }
    done.
Qed.

Lemma verify_token_gate_witness :
  (dependencies Scenario.TOKEN GetKanban (Some "Bearer s3cret") Scenario.board).1
    = Ok ()
  ∧ failure (dependencies Scenario.TOKEN PutKanbanTask (Some "bearer guess")
               Scenario.board) = Some Forbidden
  ∧ failure (dependencies Scenario.TOKEN GetActivity (Some "Basic s3cret")
               Scenario.board) = Some Unauthorized
  ∧ failure (dependencies Scenario.TOKEN GetActivityStream None Scenario.board)
    = Some Unauthorized
  ∧ (dependencies "" PostActivity None Scenario.board).1 = Ok ().
Proof.
  split_and!.
  - destruct (verify_token_gate Scenario.TOKEN GetKanban
                (Some "Bearer s3cret") Scenario.board) as (_ & _ & H); [done|].
    destruct H as (_ & _ & _ & H); [done|].
    apply (H "Bearer s3cret"); [done|].
    exists "Bearer". split; [reflexivity|by left].
  - destruct (verify_token_gate Scenario.TOKEN PutKanbanTask
                (Some "bearer guess") Scenario.board) as (_ & _ & H); [done|].
    destruct H as (_ & _ & H & _); [done|].
    apply (H "bearer guess" "guess"); [done| |done].
    exists "bearer". split; [reflexivity|by left].
  - destruct (verify_token_gate Scenario.TOKEN GetActivity
                (Some "Basic s3cret") Scenario.board) as (_ & _ & H); [done|].
    destruct H as (_ & H & _); [done|].
    apply (H "Basic s3cret"); [done|done|].
    intros token [Hs _]%bearer_header_partition. vm_compute in Hs. done.
  - destruct (verify_token_gate Scenario.TOKEN GetActivityStream None
                Scenario.board) as (_ & _ & H); [done|].
    destruct H as (H & _); [done|]. apply H. by left.
  - destruct (verify_token_gate "" PostActivity None Scenario.board)
      as (_ & H & _); [done|]. by apply H.
Defined.

(** *** Get-by-id *)

Lemma task_by_id_None u w :
  (∀ r, r ∈ tasks w → Task.id r ≠ u) → task_by_id u w = None.
Proof.
  unfold task_by_id. induction (tasks w) as [|r l IH]; intros H; [done|].
  rewrite filter_cons. rewrite decide_False by (apply H; left).
  apply IH. intros r' Hr'. apply H. by right.
Qed.

Lemma task_by_id_Some u w r :
  task_by_id u w = Some r → r ∈ tasks w ∧ Task.id r = u.
Proof.
  unfold task_by_id. intros H%head_Some_elem_of.
  by apply list_elem_of_filter in H as [? ?].
Qed.

(** *** The reference parser on well-formed identifiers *)

Lemma all_chars_impl (P Q : ascii → bool) s :
  (∀ c, P c = true → Q c = true) → all_chars P s = true → all_chars Q s = true.
Proof.
  intros HPQ. induction s as [|c s IH]; [done|]. simpl.
  intros [Hc Hs]%andb_true_iff. apply andb_true_iff. auto.
Qed.

Lemma all_chars_rev_app P s1 s2 :
  all_chars P (String.rev_app s1 s2) = all_chars P s1 && all_chars P s2.
Proof.
  revert s2. induction s1 as [|c s1 IH]; intros s2; [done|]. simpl.
  rewrite IH. simpl. by destruct (P c), (all_chars P s1).
Qed.

Lemma rev_app_rev_app s1 s2 s3 :
  String.rev_app (String.rev_app s1 s2) s3 = String.rev_app s2 (s1 +:+ s3).
Proof.
  revert s2 s3. induction s1 as [|c s1 IH]; intros s2 s3; [done|].
  simpl. by rewrite IH.
Qed.

Lemma string_rev_involutive s : String.rev (String.rev s) = s.
Proof.
  unfold String.rev. rewrite rev_app_rev_app. simpl.
  apply string_app_empty_r.
Qed.

Lemma all_chars_rev P s : all_chars P (String.rev s) = all_chars P s.
Proof.
  unfold String.rev. rewrite all_chars_rev_app. simpl. apply andb_true_r.
Qed.

(** Deleting a word changes nothing in a text without its first letter. *)
Lemma delete_absent a sub s :
  all_chars (λ c, negb (bool_decide (c = a))) s = true →
  UuidLib.delete (String a sub) s = s.
Proof.
  unfold UuidLib.delete. induction s as [|c s IH]; [done|]. simpl.
  intros [Hc Hs]%andb_true_iff.
  apply negb_true_iff, bool_decide_eq_false in Hc.
  destruct (ascii_dec a c) as [->|_]; [done|]. by rewrite IH.
Qed.

Lemma lstrip_braces_none s :
  all_chars (λ c, negb (UuidLib.is_brace c)) s = true →
  UuidLib.lstrip_braces s = s.
Proof.
  destruct s as [|c s]; [done|]. simpl.
  intros [Hc _]%andb_true_iff. apply negb_true_iff in Hc. by rewrite Hc.
Qed.

Lemma strip_braces_none s :
  all_chars (λ c, negb (UuidLib.is_brace c)) s = true →
  UuidLib.strip_braces s = s.
Proof.
  intros Hs. unfold UuidLib.strip_braces.
  rewrite (lstrip_braces_none s Hs).
  rewrite lstrip_braces_none by (by rewrite all_chars_rev).
  apply string_rev_involutive.
Qed.

Lemma lstrip_space_none s :
  all_chars (λ c, negb (UuidLib.is_space c)) s = true →
  UuidLib.lstrip_space s = s.
Proof.
  destruct s as [|c s]; [done|]. simpl.
  intros [Hc _]%andb_true_iff. apply negb_true_iff in Hc. by rewrite Hc.
Qed.

Lemma strip_space_none s :
  all_chars (λ c, negb (UuidLib.is_space c)) s = true →
  UuidLib.strip_space s = s.
Proof.
  intros Hs. unfold UuidLib.strip_space.
  rewrite (lstrip_space_none s Hs).
  rewrite lstrip_space_none by (by rewrite all_chars_rev).
  apply string_rev_involutive.
Qed.

(** A hexadecimal digit is none of the other characters the parser looks
    for. *)
Lemma is_hex_other c d : is_hex c = true → is_hex d = false → c ≠ d.
Proof. intros Hc Hd ->. congruence. Qed.

Lemma is_hex_not c d :
  is_hex c = true → is_hex d = false → bool_decide (c = d) = false.
Proof. intros Hc Hd. apply bool_decide_eq_false. by apply is_hex_other. Qed.

Lemma is_hex_not_space c : is_hex c = true → UuidLib.is_space c = false.
Proof.
  unfold is_hex, UuidLib.hex_digit, UuidLib.is_space.
  repeat case_bool_decide; try done; intros _; simpl; lia.
Qed.

Lemma hex_digit_bound c d : UuidLib.hex_digit c = Some d → (d < 16)%N.
Proof.
  unfold UuidLib.hex_digit.
  repeat case_bool_decide; intros; simplify_eq; lia.
Qed.

(** A text of hexadecimal digits is read as the number it spells, below
    16 to the power of its length. *)
Lemma digits16_hex s acc :
  all_chars is_hex s = true →
  ∃ n, UuidLib.digits16 acc false s = Some n
       ∧ (n < (acc + 1) * 16 ^ N.of_nat (String.length s))%N.
Proof.
  revert acc. induction s as [|c s IH]; intros acc; simpl.
  - intros _. exists acc. split; [done|]. lia.
  - intros [Hc Hs]%andb_true_iff.
    rewrite (is_hex_not c "_"%char Hc) by done.
    unfold is_hex in Hc.
    destruct (UuidLib.hex_digit c) as [d|] eqn:Hd; [|done].
    apply hex_digit_bound in Hd.
    destruct (IH (16 * acc + d)%N Hs) as (n & Hn & Hlt).
    exists n. split; [done|].
    rewrite Nat2N.inj_succ, N.pow_succ_r'. nia.
Qed.

Lemma int16_hex s :
  all_chars is_hex s = true → s ≠ "" →
  ∃ n, UuidLib.int16 s = Some (Z.of_N n)
       ∧ (n < 16 ^ N.of_nat (String.length s))%N.
Proof.
  intros Hs Hne. unfold UuidLib.int16.
  rewrite strip_space_none
    by (eapply all_chars_impl; [|done];
        intros c Hc; by rewrite is_hex_not_space).
  destruct s as [|c s]; [done|].
  pose proof Hs as Hs'. simpl in Hs'. apply andb_true_iff in Hs' as [Hc Hrest].
  unfold UuidLib.read_sign.
  rewrite (is_hex_not c "+"%char Hc), (is_hex_not c "-"%char Hc) by done.
  assert (UuidLib.read_prefix (String c s) = String c s) as ->.
  { unfold UuidLib.read_prefix. destruct s as [|x s]; [done|].
    simpl in Hrest. apply andb_true_iff in Hrest as [Hx _].
    rewrite (is_hex_not x "x"%char Hx), (is_hex_not x "X"%char Hx) by done.
    by rewrite andb_false_r. }
  rewrite (is_hex_not c "_"%char Hc) by done.
  destruct (digits16_hex (String c s) 0 Hs) as (n & -> & Hlt).
  exists n. split; [done|]. lia.
Qed.

Lemma canonical_chars i s :
  canonical_from i s = true →
  all_chars (λ c, is_hex c || bool_decide (c = "-"%char)) s = true.
Proof.
  revert i. induction s as [|c s IH]; intros i; [done|]. simpl.
  intros [[_ Hc]%andb_true_iff Hs]%andb_true_iff.
  apply andb_true_iff. split; [|by apply (IH (S i))].
  destruct (hyphen_at i); rewrite Hc; [apply orb_true_r|done].
Qed.

Lemma canonical_from_cons i c s :
  canonical_from i (String c s) = true →
  (i < 36)%nat
  ∧ (if hyphen_at i then c = "-"%char else is_hex c = true)
  ∧ canonical_from (S i) s = true.
Proof.
  cbn [canonical_from].
  intros [[Hi%Nat.ltb_lt Hc]%andb_true_iff Hs]%andb_true_iff.
  split_and!; [done| |done].
  destruct (hyphen_at i); [by apply bool_decide_eq_true in Hc|done].
Qed.

Lemma delete_hyphens_hex c s :
  is_hex c = true →
  UuidLib.delete_hyphens (String c s) = String c (UuidLib.delete_hyphens s).
Proof.
  intros Hc. cbn [UuidLib.delete_hyphens].
  by rewrite (is_hex_not c "-"%char Hc).
Qed.

Lemma delete_hyphens_hyphen s :
  UuidLib.delete_hyphens (String "-"%char s) = UuidLib.delete_hyphens s.
Proof. done. Qed.

Lemma all_chars_cons P c s :
  P c = true → all_chars P s = true → all_chars P (String c s) = true.
Proof. intros Hc Hs. cbn [all_chars]. by rewrite Hc, Hs. Qed.

(** Without its hyphens a well-formed identifier is 32 hexadecimal
    digits. *)
Lemma canonical_digits s :
  well_formed_uuid s = true →
  all_chars is_hex (UuidLib.delete_hyphens s) = true
  ∧ String.length (UuidLib.delete_hyphens s) = 32%nat.
Proof.
  unfold well_formed_uuid. intros H.
  do 36 (destruct s as [|? s]; [done|];
         apply canonical_from_cons in H as (_ & ? & H)).
  destruct s as [|? s];
    [|apply canonical_from_cons in H as (? & _); lia].
  clear H.
  repeat match goal with
         | Hc : if hyphen_at ?k then _ else _ |- _ =>
             let b := eval vm_compute in (hyphen_at k) in
             change (hyphen_at k) with b in Hc; cbv iota in Hc
         end.
  subst.
  repeat first [rewrite delete_hyphens_hyphen
               |rewrite delete_hyphens_hex by done].
  split; [|done].
  repeat (apply all_chars_cons; [done|]). done.
Qed.

Lemma hex_or_hyphen_not c d :
  is_hex d = false → d ≠ "-"%char →
  is_hex c || bool_decide (c = "-"%char) = true →
  negb (bool_decide (c = d)) = true.
Proof.
  intros Hd Hne [Hc|Hc]%orb_true_iff; apply negb_true_iff.
  - by apply is_hex_not.
  - apply bool_decide_eq_true in Hc as ->. by apply bool_decide_eq_false.
Qed.

(** The reference parser accepts every well-formed identifier. *)
Lemma well_formed_accepted s :
  well_formed_uuid s = true → ∃ u, UuidLib.UUID s = Some u.
Proof.
  intros Hs. pose proof (canonical_chars 0 s Hs) as Hchars.
  destruct (canonical_digits s Hs) as [Hhex Hlen].
  assert (all_chars (λ c, negb (bool_decide (c = "u"%char))) s = true) as Hu.
  { apply (all_chars_impl _ _ s
             (λ c, hex_or_hyphen_not c "u"%char eq_refl ltac:(done)) Hchars). }
  assert (all_chars (λ c, negb (UuidLib.is_brace c)) s = true) as Hbrace.
  { eapply all_chars_impl; [|exact Hchars].
    intros c Hc. unfold UuidLib.is_brace.
    pose proof (hex_or_hyphen_not c "{"%char eq_refl ltac:(done) Hc) as H1.
    pose proof (hex_or_hyphen_not c "}"%char eq_refl ltac:(done) Hc) as H2.
    apply negb_true_iff in H1, H2. by rewrite H1, H2. }
  unfold UuidLib.UUID.
  rewrite (delete_absent _ _ s Hu), (delete_absent _ _ s Hu).
  rewrite strip_braces_none by done.
  rewrite bool_decide_true by done.
  destruct (int16_hex (UuidLib.delete_hyphens s)) as (n & -> & Hlt);
    [done|by intros Hnil; rewrite Hnil in Hlen|].
  rewrite Hlen in Hlt. rewrite bool_decide_true; [by eexists|].
  change (2 ^ 128) with (Z.of_N (16 ^ 32)). lia.
Qed.

(** C5, as the code has it.  Get-by-id on an identifier that [uuid.UUID]
    rejects fails with InvalidArgument and sends nothing to the store (the
    world is as it was); on an identifier that [uuid.UUID] accepts and no
    row carries, it sends its one query and fails with NotFound; the two
    classes differ.  (When a row carries the identifier, that row is
    returned.)  Every well-formed identifier is accepted, so a well-formed
    identifier that no row carries gives NotFound. *)
Theorem get_task_errors (UUID : string → option uuid) (task_id : string)
    (w : world) :
  (UUID task_id = None →
     failure (get_task UUID task_id w) = Some InvalidArgument
     ∧ (get_task UUID task_id w).2 = w
     ∧ sent (get_task UUID task_id w).2 = sent w)
  ∧ (∀ u, UUID task_id = Some u →
          (∀ r, r ∈ tasks w → Task.id r ≠ u) →
          failure (get_task UUID task_id w) = Some NotFound
          ∧ sent (get_task UUID task_id w).2
            = sent w ++ [Statement "SELECT * FROM tasks WHERE id = $1" [VUuid u]])
  ∧ (∀ u r, UUID task_id = Some u → task_by_id u w = Some r →
            (get_task UUID task_id w).1 = Ok r)
  ∧ InvalidArgument ≠ NotFound
  ∧ (well_formed_uuid task_id = true →
     ∃ u, UuidLib.UUID task_id = Some u
          ∧ ((∀ r, r ∈ tasks w → Task.id r ≠ u) →
             failure (get_task UuidLib.UUID task_id w) = Some NotFound)).
Proof.
  unfold get_task. split_and!.
  - by intros ->.
  - intros u -> Hno. unfold bind, conn_fetch.
    by rewrite (task_by_id_None u w Hno).
  - intros u r -> Hr. unfold bind, conn_fetch. by rewrite Hr.
  - done.
  - intros [u Hu]%well_formed_accepted. exists u. split; [done|].
    intros Hno. rewrite Hu. unfold bind, conn_fetch.
    by rewrite (task_by_id_None u w Hno).
Qed.

(** C5 fails as stated: the identifier made of a plus sign and 31
    hexadecimal digits is not a well-formed identifier, yet [uuid.UUID]
    reads it as the number 7: the handler queries the store and answers
    with the task 7, and with NotFound, not InvalidArgument, for the like
    spelling of 8. *)
Lemma get_task_reads_malformed :
  well_formed_uuid "+0000000000000000000000000000007" = false
  ∧ get_task UuidLib.UUID "+0000000000000000000000000000007" Scenario.board
    = (Ok Scenario.fix_bug,
       log_statement
         (Statement "SELECT * FROM tasks WHERE id = $1" [VUuid 7%N])
         Scenario.board)
  ∧ failure (get_task UuidLib.UUID "+0000000000000000000000000000008"
               Scenario.board) = Some NotFound.
Proof. by vm_compute. Qed.

Lemma get_task_errors_witness :
  failure (get_task UuidLib.UUID "not-a-uuid" Scenario.board)
    = Some InvalidArgument
  ∧ sent (get_task UuidLib.UUID "not-a-uuid" Scenario.board).2 = []
  ∧ failure (get_task UuidLib.UUID "00000000-0000-0000-0000-000000000008"
               Scenario.board) = Some NotFound
  ∧ (get_task UuidLib.UUID Scenario.task_id Scenario.board).1
    = Ok Scenario.fix_bug
  ∧ ∃ u, UuidLib.UUID "00000000-0000-0000-0000-000000000008" = Some u.
Proof.
  split_and!.
  - destruct (get_task_errors UuidLib.UUID "not-a-uuid" Scenario.board)
      as (H & _). by apply H.
  - destruct (get_task_errors UuidLib.UUID "not-a-uuid" Scenario.board)
      as (H & _). by apply H.
  - destruct (get_task_errors UuidLib.UUID
                "00000000-0000-0000-0000-000000000008" Scenario.board)
      as (_ & H & _).
    apply (H 8%N); [reflexivity|].
    intros r ->%list_elem_of_singleton. done.
  - destruct (get_task_errors UuidLib.UUID Scenario.task_id Scenario.board)
      as (_ & _ & H & _).
    apply (H 7%N); reflexivity.
  - destruct (get_task_errors UuidLib.UUID
                "00000000-0000-0000-0000-000000000008" Scenario.board)
      as (_ & _ & _ & _ & H).
    destruct H as (u & Hu & _); [reflexivity|]. by exists u.
Defined.

(** *** Update *)

(** C10. An update that supplies [completed_at] and nothing else fails with
    the empty-update error, an InvalidArgument, and leaves the world, hence
    every task, as it was: nothing is sent to the store and the clock is
    not read. *)
Theorem update_task_only_completed_at (UUID : string → option uuid)
    (refused : statement → bool)
    (task_id completed_at : string) (w : world) :
  update_task UUID refused task_id
    (TaskUpdate.Make None None None None None (Some completed_at)) w
  = (Raise (Http 400 "No fields to update"), w)
  ∧ classify (Http 400 "No fields to update") = InvalidArgument.
Proof. done. Qed.

(** The dictionary [updates] in closed form; the clock is read only for a
    stamp. *)
Lemma collect_updates_eq task w :
  collect_updates task w
  = (Ok (supplied task (clock w (clock_reads w))),
     if stamps task then tick_clock w else w).
Proof.
  destruct task as [[ti|] [de|] [st|] [pr|] [ag|] co];
    unfold collect_updates, supplied, stamps, bind, ret, now; simpl;
    try done;
    (destruct (decide (st = "done")) as [->|Hst];
     [rewrite ?bool_decide_true by done
     |rewrite ?(bool_decide_false (st = "done")),
              ?(bool_decide_false (Some st = Some "done")) by congruence];
     simpl; destruct (Py.truthy_opt co); done).
Qed.

Lemma supplied_keys task t :
  Py.keys (supplied task t) ++ ["updated_at"] = update_columns (shape_of task).
Proof.
  destruct task as [[ti|] [de|] [st|] [pr|] [ag|] co];
    unfold supplied, update_columns, shape_of, stamps; simpl;
    try destruct (_ && _); done.
Qed.

Lemma update_columns_fixed s : update_columns s ⊆ updatable_columns.
Proof.
  destruct s as [[] [] [] [] [] []]; compute_done.
Qed.

Lemma setitem_fresh {V} (d : list (string * V)) k v :
  k ∉ Py.keys d → Py.setitem d k v = d ++ [(k, v)].
Proof.
  induction d as [|[k' v'] d IH]; intros Hk; [done|]. simpl.
  rewrite bool_decide_false.
  - f_equal. apply IH. intros ?. apply Hk. by right.
  - intros ->. apply Hk. by left.
Qed.

Lemma supplied_no_updated_at task t : "updated_at" ∉ Py.keys (supplied task t).
Proof.
  destruct task as [[ti|] [de|] [st|] [pr|] [ag|] co];
    unfold supplied, stamps; simpl; try destruct (_ && _); compute_done.
Qed.

Lemma supplied_nil_no_stamp task t : supplied task t = [] → stamps task = false.
Proof.
  destruct task as [[ti|] [de|] [st|] [pr|] [ag|] co];
    unfold supplied, stamps; simpl; try done.
Qed.

(** [update_task] in closed form. *)
Lemma update_task_eq UUID refused task_id task w :
  let t1 := clock w (clock_reads w) in
  let w1 := if stamps task then tick_clock w else w in
  let t2 := clock w1 (clock_reads w1) in
  let updates := supplied task t1 ++ [("updated_at", VTime t2)] in
  update_task UUID refused task_id task w
  = match supplied task t1 with
    | [] => (Raise (Http 400 "No fields to update"), w)
    | _ =>
        match UUID task_id with
        | None => (Raise (Http 400 "Invalid task ID"), tick_clock w1)
        | Some u =>
            let q := Statement (update_sql (update_columns (shape_of task)))
                               (VUuid u :: Py.values updates) in
            if refused q
            then (Raise (Http 400 "Invalid task ID"), tick_clock w1) else
            let w2 :=
              log_statement q
                (set_tasks (update_where_id u updates) (tick_clock w1)) in
            (match task_by_id u w2 with
             | None => Raise (Http 404 "Task not found")
             | Some r => Ok r
             end,
             log_statement
               (Statement "SELECT * FROM tasks WHERE id = $1" [VUuid u]) w2)
        end
    end.
Proof.
  intros t1 w1 t2 updates. unfold update_task, bind.
  rewrite collect_updates_eq. fold t1 w1.
  pose proof (supplied_no_updated_at task t1) as Hfresh.
  pose proof (supplied_keys task t1) as Hkeys.
  pose proof (supplied_nil_no_stamp task t1) as Hnil.
  destruct (supplied task t1) as [|kv l] eqn:Hs.
  { unfold raise. subst w1. by rewrite Hnil. }
  unfold now. rewrite setitem_fresh by done. fold t2.
  destruct (UUID task_id) as [u|]; [|done].
  unfold conn_execute, conn_fetch, Py.keys. unfold Py.keys in Hkeys.
  rewrite <- Hkeys, !fmap_app. simpl.
  destruct (refused _); [done|].
  by destruct (task_by_id u _).
Qed.

Lemma sent_after_stamp (b : bool) w : sent (if b then tick_clock w else w) = sent w.
Proof. by destruct b. Qed.

Lemma tasks_after_stamp (b : bool) w :
  tasks (if b then tick_clock w else w) = tasks w.
Proof. by destruct b. Qed.

(** C9. The text of the UPDATE statement is [update_sql] of a list of
    columns that depends on the shape of the request only (which fields
    are present, and whether [completed_at] is stamped) and is drawn from
    the seven fixed names; the identifier and every value travel as bound
    parameters.  The handler sends nothing else but the SELECT that reads
    the row back, whose text is fixed. *)
Theorem update_task_statement (UUID : string → option uuid)
    (refused : statement → bool)
    (task_id : string) (task : TaskUpdate.t) (w : world) :
  update_columns (shape_of task) ⊆ updatable_columns
  ∧ ∃ new, sent (update_task UUID refused task_id task w).2 = sent w ++ new
      ∧ (new = []
         ∨ ∃ u t1 t2, UUID task_id = Some u
             ∧ new = [Statement
                        (update_sql (update_columns (shape_of task)))
                        (VUuid u :: Py.values (supplied task t1
                                               ++ [("updated_at", VTime t2)]));
                      Statement "SELECT * FROM tasks WHERE id = $1" [VUuid u]]).
Proof.
  split; [apply update_columns_fixed|].
  pose proof (update_task_eq UUID refused task_id task w) as Heq. simpl in Heq.
  rewrite Heq. clear Heq.
  destruct (supplied task _) as [|kv l] eqn:Hs.
  { exists []. split; [by rewrite app_nil_r|by left]. }
  rewrite <- Hs. clear Hs.
  destruct (UUID task_id) as [u|]; simpl.
  - destruct (refused _); simpl.
    + exists []. split; [by rewrite sent_after_stamp, app_nil_r|by left].
    + eexists. split; [by rewrite sent_after_stamp, <- app_assoc|].
      right. by eexists _, _, _.
  - exists []. split; [by rewrite sent_after_stamp, app_nil_r|by left].
Qed.

(** The statement of a request that sets a title and the status [done]. *)
Example update_task_statement_text :
  sent (update_task UuidLib.UUID Store.refused Scenario.task_id
          (TaskUpdate.Make (Some "x") None (Some "done") None None None)
          Scenario.board).2
  = [Statement
       "UPDATE tasks SET title = $2, status = $3, completed_at = $4, updated_at = $5 WHERE id = $1"
       [VUuid 7%N; VStr "x"; VStr "done"; VTime 10; VTime 20];
     Statement "SELECT * FROM tasks WHERE id = $1" [VUuid 7%N]].
Proof. by vm_compute. Qed.

(** *** The completion stamp *)

Lemma set_column_id r kv : Task.id (set_column r kv) = Task.id r.
Proof.
  destruct kv as [k v], r. unfold set_column.
  repeat case_bool_decide; destruct v; done.
Qed.

Lemma foldl_set_column_id updates r :
  Task.id (foldl set_column r updates) = Task.id r.
Proof.
  revert r. induction updates as [|kv l IH]; intros r; [done|].
  simpl. by rewrite IH, set_column_id.
Qed.

(** The row read back after the UPDATE is the first row of that
    identifier, updated. *)
Lemma task_by_id_updated u updates q w :
  task_by_id u (log_statement q (set_tasks (update_where_id u updates) w))
  = (λ r, foldl set_column r updates) <$> task_by_id u w.
Proof.
  unfold task_by_id. simpl. induction (tasks w) as [|r l IH]; [done|].
  unfold update_where_id in *. rewrite fmap_cons, !filter_cons.
  case_bool_decide as Hr.
  - rewrite decide_True by (by rewrite foldl_set_column_id).
    by rewrite decide_True by done.
  - by rewrite !decide_False by done.
Qed.

(** What an update does to [completed_at] of a row it reaches. *)
Lemma completed_at_updated task t1 t2 r :
  Task.completed_at
    (foldl set_column r (supplied task t1 ++ [("updated_at", VTime t2)]))
  = if stamps task then Some t1 else Task.completed_at r.
Proof.
  destruct r, task as [[ti|] [de|] [st|] [pr|] [ag|] co];
    unfold supplied, stamps; simpl; try destruct (_ && _); done.
Qed.

Lemma completed_at_column s :
  "completed_at" ∈ update_columns s ↔ has_stamp s = true.
Proof.
  destruct s as [[] [] [] [] [] []]; simpl;
    (split; [intros Hin|intros ?]; try done; try compute_done;
     exfalso; revert Hin; compute_done).
Qed.

(** C3, as the code has it.  A successful update that supplies no
    [completed_at] (absent or empty) stamps [completed_at] with the reading
    of the clock exactly when it carries the status [done], whatever the
    status of the task before, and names the column in its statement exactly
    then; an update that does not carry [done] leaves [completed_at] as it
    was.  So a sequence of updates stamps once per update that carries
    [done]. *)
Theorem update_task_stamps_done (UUID : string → option uuid)
    (refused : statement → bool)
    (task_id : string) (task : TaskUpdate.t) (w w' : world) (u : uuid)
    (old r : Task.row) :
  Py.truthy_opt (TaskUpdate.completed_at task) = false →
  UUID task_id = Some u →
  task_by_id u w = Some old →
  update_task UUID refused task_id task w = (Ok r, w') →
  Task.completed_at r
  = (if bool_decide (TaskUpdate.status task = Some "done")
     then Some (clock w (clock_reads w))
     else Task.completed_at old)
  ∧ ("completed_at" ∈ update_columns (shape_of task)
     ↔ TaskUpdate.status task = Some "done").
Proof.
  intros Hco Hu Hold Hrun.
  assert (stamps task = bool_decide (TaskUpdate.status task = Some "done"))
    as Hst by (unfold stamps; by rewrite Hco, andb_true_r).
  split.
  - pose proof (update_task_eq UUID refused task_id task w) as Heq. simpl in Heq.
    rewrite Heq, Hu in Hrun. clear Heq.
    destruct (supplied task _) as [|kv l] eqn:Hs; [done|].
    rewrite <- Hs in Hrun. clear Hs.
    destruct (refused _); [done|].
    rewrite task_by_id_updated in Hrun.
    assert (task_by_id u (tick_clock (if stamps task then tick_clock w else w))
            = Some old) as Hold'.
    { unfold task_by_id in *. simpl. by rewrite tasks_after_stamp. }
    rewrite Hold' in Hrun. simpl in Hrun.
    injection Hrun as <- _.
    by rewrite completed_at_updated, Hst.
  - rewrite completed_at_column. simpl. rewrite Hst.
    apply bool_decide_eq_true.
Qed.

Lemma update_task_stamps_done_witness :
  Task.completed_at
    (Task.Row 7%N "Fix bug" None "done" 5 None 1 20 (Some 10)) = Some 10
  ∧ Task.completed_at
      (Task.Row 7%N "Renamed" None "backlog" 5 None 1 10 None) = None.
Proof.
  split.
  - apply (update_task_stamps_done UuidLib.UUID Store.refused Scenario.task_id
             Scenario.set_done Scenario.board
             (update_task UuidLib.UUID Store.refused Scenario.task_id Scenario.set_done
                Scenario.board).2
             7%N Scenario.fix_bug); by vm_compute.
  - apply (update_task_stamps_done UuidLib.UUID Store.refused Scenario.task_id
             (TaskUpdate.Make (Some "Renamed") None None None None None)
             Scenario.board
             (update_task UuidLib.UUID Store.refused Scenario.task_id
                (TaskUpdate.Make (Some "Renamed") None None None None None)
                Scenario.board).2
             7%N Scenario.fix_bug); by vm_compute.
Defined.

(** C3 fails as stated: two updates in a row carry the status [done] and
    no [completed_at]; both succeed, the task is already [done] when the
    second arrives, and the second stamps [completed_at] again, at 30 where
    the first had stamped 10. *)
Lemma update_task_restamps_done :
  (update_task UuidLib.UUID Store.refused Scenario.task_id Scenario.set_done Scenario.board).1
  = Ok (Task.Row 7%N "Fix bug" None "done" 5 None 1 20 (Some 10))
  ∧ tasks Scenario.done_once
    = [Task.Row 7%N "Fix bug" None "done" 5 None 1 20 (Some 10)]
  ∧ (update_task UuidLib.UUID Store.refused Scenario.task_id Scenario.set_done
       Scenario.done_once).1
    = Ok (Task.Row 7%N "Fix bug" None "done" 5 None 1 40 (Some 30))
  ∧ tasks Scenario.done_twice
    = [Task.Row 7%N "Fix bug" None "done" 5 None 1 40 (Some 30)].
Proof. by vm_compute. Qed.

(** C2 on the code.  When a request supplies a (non-empty) [completed_at],
    no update changes [completed_at] of any row: the value is read only to
    decide against the stamp and is never written.  On the board, the
    request that sets [done] with [completed_at] 2024-01-01T00:00:00 sends a
    statement that names [status] and [updated_at] only, and the task comes
    back [done] with no [completed_at]. *)
Theorem update_task_drops_supplied_completed_at :
  (∀ (UUID : string → option uuid)
    (refused : statement → bool) task_id task w,
     Py.truthy_opt (TaskUpdate.completed_at task) = true →
     Task.completed_at <$> tasks (update_task UUID refused task_id task w).2
     = Task.completed_at <$> tasks w)
  ∧ update_task UuidLib.UUID Store.refused Scenario.task_id
      (Scenario.set_done_at "2024-01-01T00:00:00") Scenario.board
    = (Ok (Task.Row 7%N "Fix bug" None "done" 5 None 1 10 None),
       World [Task.Row 7%N "Fix bug" None "done" 5 None 1 10 None] []
             (clock Scenario.board) 1 (uuid4_stream Scenario.board) 0
             [Statement
                "UPDATE tasks SET status = $2, updated_at = $3 WHERE id = $1"
                [VUuid 7%N; VStr "done"; VTime 10];
              Statement "SELECT * FROM tasks WHERE id = $1" [VUuid 7%N]]).
Proof.
  split; [|done].
  intros UUID refused task_id task w Hco.
  assert (stamps task = false) as Hst
    by (unfold stamps; by rewrite Hco, andb_false_r).
  pose proof (update_task_eq UUID refused task_id task w) as Heq. simpl in Heq.
  rewrite Heq, Hst. clear Heq.
  destruct (supplied task _) as [|kv l] eqn:Hs; [done|].
  rewrite <- Hs. clear Hs.
  destruct (UUID task_id) as [u|]; simpl; [|done].
  destruct (refused _); [done|]. simpl.
  unfold update_where_id. rewrite <- list_fmap_compose.
  apply list_fmap_ext. intros i r _. simpl.
  case_bool_decide; [|done].
  by rewrite completed_at_updated, Hst.
Qed.

(** *** Orderings *)

Global Instance by_priority_created_desc_total : Total by_priority_created_desc.
Proof. intros x y. unfold by_priority_created_desc. lia. Qed.

Global Instance by_priority_created_desc_trans :
  Transitive by_priority_created_desc.
Proof. intros x y z. unfold by_priority_created_desc. lia. Qed.

Global Instance by_created_desc_total : Total by_created_desc.
Proof. intros x y. unfold by_created_desc. lia. Qed.

Global Instance by_created_desc_trans : Transitive by_created_desc.
Proof. intros x y z. unfold by_created_desc. lia. Qed.

Global Instance by_created_asc_trans : Transitive by_created_asc.
Proof. intros x y z. unfold by_created_asc. lia. Qed.



(** *** List *)



(** *** The activity stream *)

Lemma scan_rows_from acc last rows :
  (foldl scan_step (acc, last) rows).1 = acc ++ rows.
Proof.
  revert acc last. induction rows as [|r l IH]; intros acc last; simpl.
  - by rewrite app_nil_r.
  - unfold scan_step at 2. by rewrite IH, <- app_assoc.
Qed.

Lemma scan_rows_from_set acc t rows :
  (foldl scan_step (acc, Some t) rows).2 = Some t.
Proof.
  revert acc. induction rows as [|r l IH]; intros acc; [done|].
  simpl. unfold scan_step at 2. apply IH.
Qed.

(** The loop collects the rows in the order of the answer. *)
Lemma scan_rows_events rows last : (scan_rows rows last).1 = rows.
Proof. unfold scan_rows. by rewrite scan_rows_from. Qed.

Lemma activity_tick_first w :
  (activity_tick None w).1
  = Ok (reverse (take 100 (merge_sort by_created_desc (activity_events w))),
        (scan_rows (take 100 (merge_sort by_created_desc (activity_events w)))
           None).2).
Proof.
  unfold activity_tick, bind, conn_fetch. simpl.
  pose proof (scan_rows_events
                (take 100 (merge_sort by_created_desc (activity_events w))) None)
    as Hev.
  destruct (scan_rows _ _) as [events last]. simpl in *. by subst.
Qed.

(** Timestamps that differ pairwise fix the order of three events. *)
Lemma three_events_sorted (l : list Event.row) e1 e2 e3 :
  l ≡ₚ [e1; e2; e3] →
  Event.created_at e1 < Event.created_at e2 < Event.created_at e3 →
  merge_sort by_created_desc l = [e3; e2; e1].
Proof.
  intros Hl Ht.
  apply (StronglySorted_unique_strong by_created_desc).
  - intros x y Hx Hy. rewrite merge_sort_Permutation, Hl in Hx.
    unfold by_created_desc.
    repeat (apply elem_of_cons in Hx as [->|Hx]);
      try (by apply elem_of_nil in Hx);
      repeat (apply elem_of_cons in Hy as [->|Hy]);
      try (by apply elem_of_nil in Hy); intros; try done; lia.
  - apply StronglySorted_merge_sort; apply _.
  - unfold by_created_desc.
    repeat (constructor; [|repeat constructor; lia]). constructor.
  - rewrite merge_sort_Permutation, Hl.
    change [e3; e2; e1] with (reverse [e1; e2; e3]).
    by rewrite reverse_Permutation.
Qed.

(** The first batch of a connection is what the first iteration yields. *)
Lemma activity_event_generator_first sleeps w :
  ∃ later,
    (activity_event_generator sleeps w).1
    = reverse (take 100 (merge_sort by_created_desc (activity_events w)))
        :: later.
Proof.
  unfold activity_event_generator.
  pose proof (activity_tick_first w) as Hfirst.
  destruct sleeps as [|during sleeps]; simpl;
    destruct (activity_tick None w) as [[[frames last]|e] w'];
    simpl in Hfirst; try done; injection Hfirst as -> _.
  - by eexists.
  - destruct (activity_event_generator_from last sleeps (during w'))
      as [later w'']. by eexists.
Qed.

(** C4. Every connection of the activity stream, whatever happens after it
    opens, starts with a batch [frames] that is the first iteration's and
    that, with some [rest], makes up the events stored at the opening: 100
    of them, or all when fewer are stored; oldest first; nothing left out is
    newer than anything yielded.  When the store holds exactly three events
    with increasing timestamps, in whatever order, the connection starts
    with them, oldest first. *)
Theorem activity_first_tick (sleeps : list (world → world)) (w : world) :
  ∃ frames later watermark rest,
    (activity_event_generator sleeps w).1 = frames :: later
    ∧ (activity_tick None w).1 = Ok (frames, watermark)
    ∧ activity_events w ≡ₚ frames ++ rest
    ∧ length frames = (100 `min` length (activity_events w))%nat
    ∧ StronglySorted by_created_asc frames
    ∧ (∀ x y, x ∈ rest → y ∈ frames →
              Event.created_at x ≤ Event.created_at y)
    ∧ (∀ e1 e2 e3,
         activity_events w ≡ₚ [e1; e2; e3] →
         Event.created_at e1 < Event.created_at e2 < Event.created_at e3 →
         frames = [e1; e2; e3]).
Proof.
  destruct (activity_event_generator_first sleeps w) as [later Hgen].
  pose proof (StronglySorted_merge_sort by_created_desc (activity_events w))
    as Hsorted.
  pose proof (merge_sort_Permutation by_created_desc (activity_events w))
    as Hperm.
  set (sorted := merge_sort by_created_desc (activity_events w)) in *.
  rewrite <- (take_drop 100 sorted) in Hsorted.
  exists (reverse (take 100 sorted)), later,
         (scan_rows (take 100 sorted) None).2, (drop 100 sorted).
  split_and!.
  - done.
  - apply activity_tick_first.
  - by rewrite reverse_Permutation, take_drop.
  - by rewrite length_reverse, length_take, Hperm.
  - apply Sorted_StronglySorted; [apply _|].
    apply (Sorted_reverse by_created_desc), StronglySorted_Sorted.
    by apply StronglySorted_app_1_l in Hsorted.
  - intros x y Hx Hy. rewrite elem_of_reverse in Hy.
    apply (StronglySorted_app_1_elem_of _ _ _ _ _ Hsorted Hy Hx).
  - intros e1 e2 e3 Hl Ht. subst sorted.
    by rewrite (three_events_sorted _ e1 e2 e3 Hl Ht).
Qed.

Lemma activity_first_tick_witness :
  ∃ later,
    (activity_event_generator [Scenario.append "e4"; id]
       Scenario.three_events_shuffled).1
    = [Scenario.E1; Scenario.E2; Scenario.E3] :: later.
Proof.
  destruct (activity_first_tick [Scenario.append "e4"; id]
              Scenario.three_events_shuffled)
    as (frames & later & watermark & rest & Hgen & _ & _ & _ & _ & _ & Hthree).
  exists later. rewrite Hgen.
  rewrite (Hthree Scenario.E1 Scenario.E2 Scenario.E3); [done| |by vm_compute].
  change (activity_events Scenario.three_events_shuffled)
    with ([Scenario.E2; Scenario.E3] ++ [Scenario.E1]).
  by rewrite (comm (++)).
Defined.

Lemma scan_rows_watermark rows t : (scan_rows rows (Some t)).2 = Some t.
Proof. apply scan_rows_from_set. Qed.

(** C1 on the code.  [last_event_id] is assigned only while it is unset:
    an iteration that starts with a watermark ends with the same watermark,
    whatever it yields.  So with E1, E2, E3 stored at the connection and E4
    appended during the first sleep, the second iteration yields E4 and so
    does every iteration after it. *)
Theorem activity_stream_repeats_event :
  (∀ t w, ∃ frames, (activity_tick (Some t) w).1 = Ok (frames, Some t))
  ∧ activity_events Scenario.three_events
    = [Scenario.E1; Scenario.E2; Scenario.E3]
  ∧ (activity_event_generator [Scenario.append "e4"; id; id]
       Scenario.three_events).1
    = [[Scenario.E1; Scenario.E2; Scenario.E3];
       [Scenario.E4]; [Scenario.E4]; [Scenario.E4]].
Proof.
  split; [|by vm_compute].
  intros t w. unfold activity_tick, bind, conn_fetch. simpl.
  pose proof (scan_rows_watermark
                (merge_sort by_created_desc
                   (filter (λ r, t < Event.created_at r) (activity_events w))) t)
    as Hw.
  destruct (scan_rows _ _) as [events last]. simpl in *. subst last.
  by eexists.
Qed.

(** *** Append *)

(** C7 on the code.  The payload is serialised only when it is a non-empty
    dictionary: the empty dictionary is stored as no payload at all, like
    an absent one, and reads give it back as null where [json.dumps] of it
    is the text of an empty object. *)
Theorem log_activity_drops_empty_payload :
  (∀ json_dumps : dict → string, dumps_if json_dumps (Some []) = None)
  ∧ (∀ (json_dumps : dict → string) kv d,
       dumps_if json_dumps (Some (kv :: d)) = Some (json_dumps (kv :: d)))
  ∧ (get_activity 100 None
       (log_activity JsonLib.json_dumps "deploy" (Some []) None
          Scenario.empty).2).1
    = Ok [Event.Row 100%N "deploy" None None 1]
  ∧ JsonLib.json_dumps [] = "{}".
Proof. by vm_compute. Qed.

(** ** More of the server *)

(** *** Update: outcomes, columns, other rows *)


Lemma set_column_created_at r kv :
  Task.created_at (set_column r kv) = Task.created_at r.
Proof.
  destruct kv as [k v], r. unfold set_column.
  repeat case_bool_decide; destruct v; done.
Qed.

Lemma foldl_set_column_created_at updates r :
  Task.created_at (foldl set_column r updates) = Task.created_at r.
Proof.
  revert r. induction updates as [|kv l IH]; intros r; [done|].
  simpl. by rewrite IH, set_column_created_at.
Qed.

(** The row an update leaves behind, column by column. *)
Lemma row_updated task t1 t2 r :
  foldl set_column r (supplied task t1 ++ [("updated_at", VTime t2)])
  = Task.Row (Task.id r)
      (default (Task.title r) (TaskUpdate.title task))
      (match TaskUpdate.description task with
       | Some d => Some d
       | None => Task.description r
       end)
      (default (Task.status r) (TaskUpdate.status task))
      (default (Task.priority r) (TaskUpdate.priority task))
      (match TaskUpdate.agent_id task with
       | Some a => Some a
       | None => Task.agent_id r
       end)
      (Task.created_at r) t2
      (if stamps task then Some t1 else Task.completed_at r).
Proof.
  destruct r, task as [[ti|] [de|] [st|] [pr|] [ag|] co];
    unfold supplied, stamps; simpl; try destruct (_ && _); done.
Qed.


Lemma task_by_id_tasks u w1 w2 : tasks w1 = tasks w2 → task_by_id u w1 = task_by_id u w2.
Proof. unfold task_by_id. by intros ->. Qed.




(** X2. Partial update.  The row a successful update answers with keeps the
    identifier and [created_at] of the stored row; each of title,
    description, status, priority and agent is the supplied value when one
    is supplied and the stored value otherwise (so no update can set the
    description or the agent back to null); [updated_at] is the reading of
    the clock taken for it, the second reading when [completed_at] was
    stamped from the first. *)
Theorem update_task_partial (UUID : string → option uuid)
    (refused : statement → bool) (task_id : string)
    (task : TaskUpdate.t) (w w' : world) (u : uuid) (old r : Task.row) :
  UUID task_id = Some u →
  task_by_id u w = Some old →
  update_task UUID refused task_id task w = (Ok r, w') →
  Task.id r = Task.id old
  ∧ Task.created_at r = Task.created_at old
  ∧ Task.title r = default (Task.title old) (TaskUpdate.title task)
  ∧ Task.description r
    = match TaskUpdate.description task with
      | Some d => Some d
      | None => Task.description old
      end
  ∧ Task.status r = default (Task.status old) (TaskUpdate.status task)
  ∧ Task.priority r = default (Task.priority old) (TaskUpdate.priority task)
  ∧ Task.agent_id r
    = match TaskUpdate.agent_id task with
      | Some a => Some a
      | None => Task.agent_id old
      end
  ∧ Task.updated_at r
    = clock w (if stamps task then S (clock_reads w) else clock_reads w).
Proof.
  intros Hu Hold Hrun.
  pose proof (update_task_eq UUID refused task_id task w) as Heq. simpl in Heq.
  rewrite Heq, Hu in Hrun. clear Heq.
  destruct (supplied task _) as [|kv l] eqn:Hs; [done|].
  rewrite <- Hs in Hrun. clear Hs.
  destruct (refused _); [done|].
  rewrite task_by_id_updated in Hrun.
  rewrite (task_by_id_tasks u _ w) in Hrun
    by (simpl; by rewrite tasks_after_stamp).
  rewrite Hold in Hrun. simpl in Hrun. injection Hrun as <- _.
  rewrite row_updated. simpl. split_and!; try done.
  by destruct (stamps task).
Qed.

Lemma update_task_partial_witness :
  Task.title (Task.Row 7%N "Fix the bug" None "backlog" 9 None 1 10 None)
    = "Fix the bug"
  ∧ Task.status (Task.Row 7%N "Fix the bug" None "backlog" 9 None 1 10 None)
    = "backlog".
Proof.
  split.
  - apply (update_task_partial UuidLib.UUID Store.refused Cases.id7 Cases.rename Cases.board
             (update_task UuidLib.UUID Store.refused Cases.id7 Cases.rename Cases.board).2
             7%N Cases.fix_bug); by vm_compute.
  - apply (update_task_partial UuidLib.UUID Store.refused Cases.id7 Cases.rename Cases.board
             (update_task UuidLib.UUID Store.refused Cases.id7 Cases.rename Cases.board).2
             7%N Cases.fix_bug); by vm_compute.
Defined.

Lemma update_where_id_ids u updates rows :
  Task.id <$> update_where_id u updates rows = Task.id <$> rows.
Proof.
  unfold update_where_id. rewrite <- list_fmap_compose.
  apply list_fmap_ext. intros i r _. simpl.
  case_bool_decide; [apply foldl_set_column_id|done].
Qed.

Lemma update_where_id_created_at u updates rows :
  Task.created_at <$> update_where_id u updates rows = Task.created_at <$> rows.
Proof.
  unfold update_where_id. rewrite <- list_fmap_compose.
  apply list_fmap_ext. intros i r _. simpl.
  case_bool_decide; [apply foldl_set_column_created_at|done].
Qed.

Lemma update_where_id_other u updates rows i r :
  rows !! i = Some r → Task.id r ≠ u →
  update_where_id u updates rows !! i = Some r.
Proof.
  intros Hi Hr. unfold update_where_id. rewrite list_lookup_fmap, Hi. simpl.
  by rewrite bool_decide_false.
Qed.

(** The tasks after an update, whatever its outcome. *)
Lemma update_task_tasks UUID refused task_id task w :
  tasks (update_task UUID refused task_id task w).2 = tasks w
  ∨ ∃ u updates, UUID task_id = Some u
      ∧ tasks (update_task UUID refused task_id task w).2
        = update_where_id u updates (tasks w).
Proof.
  pose proof (update_task_eq UUID refused task_id task w) as Heq. simpl in Heq.
  rewrite Heq. clear Heq.
  destruct (supplied task _) as [|kv l] eqn:Hs; [by left|].
  rewrite <- Hs.
  destruct (UUID task_id) as [u|]; simpl.
  - destruct (refused _); simpl.
    + left. by rewrite tasks_after_stamp.
    + right. exists u. eexists. split; [done|]. by rewrite tasks_after_stamp.
  - left. by rewrite tasks_after_stamp.
Qed.

Lemma update_task_events UUID refused task_id task w :
  activity_events (update_task UUID refused task_id task w).2 = activity_events w.
Proof.
  pose proof (update_task_eq UUID refused task_id task w) as Heq. simpl in Heq.
  rewrite Heq. clear Heq.
  destruct (supplied task _) as [|kv l]; [done|].
  destruct (UUID task_id); simpl; [destruct (refused _); simpl|];
    by destruct (stamps task).
Qed.

(** X3. What no update does, whatever its outcome: it adds, removes or
    reorders no row, changes no identifier and no [created_at], changes no
    row whose identifier is not the one of the request, and leaves the
    activity log alone. *)
Theorem update_task_frame (UUID : string → option uuid)
    (refused : statement → bool) (task_id : string)
    (task : TaskUpdate.t) (w : world) :
  Task.id <$> tasks (update_task UUID refused task_id task w).2 = Task.id <$> tasks w
  ∧ Task.created_at <$> tasks (update_task UUID refused task_id task w).2
    = Task.created_at <$> tasks w
  ∧ (∀ i r, tasks w !! i = Some r → UUID task_id ≠ Some (Task.id r) →
            tasks (update_task UUID refused task_id task w).2 !! i = Some r)
  ∧ activity_events (update_task UUID refused task_id task w).2 = activity_events w.
Proof.
  split_and!; [| | |apply update_task_events];
    destruct (update_task_tasks UUID refused task_id task w)
      as [->|(u & updates & Hu & ->)]; try done.
  - apply update_where_id_ids.
  - apply update_where_id_created_at.
  - intros i r Hi Hr. apply update_where_id_other; [done|].
    intros <-. by rewrite Hu in Hr.
Qed.

(** X4. Read your write: after a successful update, Get-by-id on the same
    identifier answers with the very row the update answered with. *)
Theorem update_task_then_get (UUID : string → option uuid)
    (refused : statement → bool) (task_id : string)
    (task : TaskUpdate.t) (w w' : world) (r : Task.row) :
  update_task UUID refused task_id task w = (Ok r, w') →
  (get_task UUID task_id w').1 = Ok r.
Proof.
  intros Hrun.
  pose proof (update_task_eq UUID refused task_id task w) as Heq. simpl in Heq.
  rewrite Heq in Hrun. clear Heq.
  destruct (supplied task _) as [|kv l] eqn:Hs; [done|].
  rewrite <- Hs in Hrun. clear Hs.
  destruct (UUID task_id) as [u|] eqn:Hu; [|done].
  destruct (refused _); [done|].
  destruct (task_by_id u _) as [r'|] eqn:Hr; [|done].
  injection Hrun as <- <-.
  unfold get_task, bind, conn_fetch. rewrite Hu.
  erewrite (task_by_id_tasks u); [by rewrite Hr|done].
Qed.

Lemma update_task_then_get_witness :
  (get_task UuidLib.UUID Cases.id7
     (update_task UuidLib.UUID Store.refused Cases.id7 Cases.rename Cases.board).2).1
  = Ok (Task.Row 7%N "Fix the bug" None "backlog" 9 None 1 10 None).
Proof.
  apply (update_task_then_get UuidLib.UUID Store.refused Cases.id7 Cases.rename Cases.board).
  by vm_compute.
Defined.

(** *** Delete *)

Lemma filter_nil_iff {A} (P : A → Prop) `{!∀ x, Decision (P x)} (l : list A) :
  filter P l = [] ↔ ∀ x, x ∈ l → ¬ P x.
Proof.
  induction l as [|x l IH].
  - split; [|done]. intros _ y Hy. by apply elem_of_nil in Hy.
  - rewrite filter_cons. destruct (decide (P x)) as [HP|HP].
    + split; [done|]. intros Hno. destruct (Hno x); [by left|done].
    + rewrite IH. split.
      * intros Hno y [->|Hy]%elem_of_cons; auto.
      * intros Hno y Hy. apply Hno. by right.
Qed.

(** The store reports no row removed exactly when no row has the
    identifier. *)
Lemma delete_status_zero u w :
  delete_status u w = "DELETE 0" ↔ ∀ r, r ∈ tasks w → Task.id r ≠ u.
Proof.
  unfold delete_status. rewrite <- (filter_nil_iff (λ r, Task.id r = u)).
  change "DELETE 0" with ("DELETE " +:+ pretty 0%nat).
  split.
  - intros Hz%(inj (String.app "DELETE "))%(inj pretty).
    by apply length_zero_iff_nil.
  - by intros ->.
Qed.


Lemma delete_where_id_gone u rows r :
  r ∈ delete_where_id u rows → Task.id r ≠ u.
Proof. unfold delete_where_id. by intros [? _]%list_elem_of_filter. Qed.



(** X6. After a delete of a well-formed identifier, whether it found a row
    or not, the identifier is gone: a second delete and a Get-by-id both
    fail with NotFound, and no List answers with a row of that
    identifier. *)
Theorem delete_task_then_gone (UUID : string → option uuid) (task_id : string)
    (u : uuid) (w : world) :
  UUID task_id = Some u →
  failure (delete_task UUID task_id (delete_task UUID task_id w).2)
    = Some NotFound
  ∧ failure (get_task UUID task_id (delete_task UUID task_id w).2)
    = Some NotFound
  ∧ (∀ status agent_id rows r,
       (get_kanban_tasks status agent_id (delete_task UUID task_id w).2).1
         = Ok rows →
       r ∈ rows → Task.id r ≠ u).
Proof.
  intros Hu.
  assert (tasks (delete_task UUID task_id w).2 = delete_where_id u (tasks w))
    as Htasks.
  { unfold delete_task, bind, conn_execute_status. rewrite Hu. simpl.
    by case_bool_decide. }
  assert (∀ r, r ∈ tasks (delete_task UUID task_id w).2 → Task.id r ≠ u)
    as Hgone.
  { intros r. rewrite Htasks. apply delete_where_id_gone. }
  split_and!.
  - unfold delete_task at 1. unfold bind, conn_execute_status. rewrite Hu.
    simpl. by rewrite bool_decide_true by (by apply delete_status_zero).
  - unfold get_task, bind, conn_fetch. rewrite Hu.
    by rewrite (task_by_id_None u _ Hgone).
  - intros status agent_id rows r Hrows Hr. apply Hgone.
    unfold get_kanban_tasks, conn_fetch in Hrows.
    repeat case_match; simpl in Hrows; injection Hrows as <-;
      rewrite merge_sort_Permutation in Hr;
      try (by apply list_elem_of_filter in Hr as [_ ?]); done.
Qed.

Lemma delete_task_then_gone_witness :
  failure (delete_task UuidLib.UUID Cases.id7
             (delete_task UuidLib.UUID Cases.id7 Cases.board).2)
    = Some NotFound
  ∧ failure (get_task UuidLib.UUID Cases.id7
               (delete_task UuidLib.UUID Cases.id7 Cases.board).2)
    = Some NotFound.
Proof.
  destruct (delete_task_then_gone UuidLib.UUID Cases.id7 7%N Cases.board)
    as (H1 & H2 & _); done.
Defined.

(** *** Create *)




(** *** Newest first, with a limit *)

Section TopSorted.

Context {A : Type} (R : relation A).
Context `{!RelDecision R, !Total R, !Transitive R}.

(** [ORDER BY ... LIMIT n]: what is kept and what is cut. *)
Lemma take_sorted (n : nat) (l : list A) :
  take n (merge_sort R l) ++ drop n (merge_sort R l) ≡ₚ l
  ∧ length (take n (merge_sort R l)) = (n `min` length l)%nat
  ∧ StronglySorted R (take n (merge_sort R l))
  ∧ (∀ x y, x ∈ drop n (merge_sort R l) → y ∈ take n (merge_sort R l) → R y x).
Proof.
  pose proof (StronglySorted_merge_sort R l) as Hsorted.
  rewrite <- (take_drop n (merge_sort R l)) in Hsorted.
  split_and!.
  - by rewrite take_drop, merge_sort_Permutation.
  - by rewrite length_take, merge_sort_Permutation.
  - by apply StronglySorted_app_1_l in Hsorted.
  - intros x y Hx Hy.
    apply (StronglySorted_app_1_elem_of _ _ _ _ _ Hsorted Hy Hx).
Qed.

(** An element that nothing else is at or before comes first. *)
Lemma merge_sort_first (x : A) (l : list A) :
  x ∈ l → (∀ y, y ∈ l → R y x → y = x) →
  ∃ tl, merge_sort R l = x :: tl.
Proof.
  intros Hx Hmax.
  pose proof (StronglySorted_merge_sort R l) as Hsorted.
  pose proof (merge_sort_Permutation R l) as Hperm.
  destruct (merge_sort R l) as [|h tl].
  { apply Permutation_nil_l in Hperm. subst l. by apply elem_of_nil in Hx. }
  exists tl. f_equal.
  apply StronglySorted_cons in Hsorted as [Hh _].
  rewrite <- Hperm in Hx. apply elem_of_cons in Hx as [->|Hx]; [done|].
  apply Hmax.
  - rewrite <- Hperm. left.
  - rewrite Forall_forall in Hh. by apply Hh.
Qed.

End TopSorted.

(** *** Activity: List and Append *)

Global Instance by_updated_desc_total : Total by_updated_desc.
Proof. intros x y. unfold by_updated_desc. lia. Qed.

Global Instance by_updated_desc_trans : Transitive by_updated_desc.
Proof. intros x y z. unfold by_updated_desc. lia. Qed.








(** *** The activity stream, iteration by iteration *)

Lemma activity_tick_since_eq t w :
  activity_tick (Some t) w
  = (Ok (reverse (merge_sort by_created_desc
                    (filter (λ r, t < Event.created_at r) (activity_events w))),
         Some t),
     log_statement (Statement (since_sql t) []) w).
Proof.
  unfold activity_tick, bind, conn_fetch. simpl.
  set (rows := merge_sort _ _).
  pose proof (scan_rows_events rows (Some t)) as Hev.
  pose proof (scan_rows_from_set [] t rows) as Hw. fold (scan_rows rows (Some t)) in Hw.
  destruct (scan_rows rows (Some t)) as [events last]. simpl in *.
  by subst.
Qed.

Lemma scan_rows_unset rows :
  (scan_rows rows None).2 = Event.created_at <$> head rows.
Proof.
  destruct rows as [|r l]; [done|]. unfold scan_rows. simpl.
  unfold scan_step at 2. simpl. apply scan_rows_from_set.
Qed.

Lemma activity_tick_first_eq w :
  activity_tick None w
  = (Ok (reverse (take 100 (merge_sort by_created_desc (activity_events w))),
         Event.created_at <$> head (merge_sort by_created_desc (activity_events w))),
     log_statement
       (Statement "SELECT * FROM activity_events ORDER BY created_at DESC LIMIT 100" [])
       w).
Proof.
  unfold activity_tick, bind, conn_fetch. simpl.
  set (rows := take 100 _).
  pose proof (scan_rows_events rows None) as Hev.
  pose proof (scan_rows_unset rows) as Hw.
  destruct (scan_rows rows None) as [events last]. simpl in *. subst.
  do 3 f_equal. subst rows. by destruct (merge_sort _ _).
Qed.

(** The first row of the answer is a newest stored event. *)
Lemma newest_first (l : list Event.row) :
  l ≠ [] →
  ∃ h tl, merge_sort by_created_desc l = h :: tl ∧ h ∈ l
          ∧ ∀ e, e ∈ l → Event.created_at e ≤ Event.created_at h.
Proof.
  intros Hl.
  pose proof (StronglySorted_merge_sort by_created_desc l) as Hsorted.
  pose proof (merge_sort_Permutation by_created_desc l) as Hperm.
  destruct (merge_sort by_created_desc l) as [|h tl].
  { by apply Permutation_nil_l in Hperm. }
  exists h, tl. split; [done|]. split; [rewrite <- Hperm; left|].
  intros e He. rewrite <- Hperm in He.
  apply StronglySorted_cons in Hsorted as [Hh _].
  rewrite Forall_forall in Hh.
  apply elem_of_cons in He as [->|He]; [done|]. by apply Hh.
Qed.

(** X10. An iteration of the activity stream that starts with a watermark
    yields exactly the stored events whose [created_at] is strictly after
    it, each as often as it is stored, oldest first; it keeps the watermark,
    and changes no event and no task. *)
Theorem activity_tick_since (t : datetime) (w : world) :
  ∃ frames,
    (activity_tick (Some t) w).1 = Ok (frames, Some t)
    ∧ frames ≡ₚ filter (λ r, t < Event.created_at r) (activity_events w)
    ∧ StronglySorted by_created_asc frames
    ∧ activity_events (activity_tick (Some t) w).2 = activity_events w
    ∧ tasks (activity_tick (Some t) w).2 = tasks w.
Proof.
  rewrite activity_tick_since_eq. eexists. split; [done|]. split_and!.
  - by rewrite reverse_Permutation, merge_sort_Permutation.
  - apply Sorted_StronglySorted; [apply _|].
    apply (Sorted_reverse by_created_desc), Sorted_merge_sort. apply _.
  - done.
  - done.
Qed.

(** X11. The watermark after the first iteration.  On an empty store the
    iteration yields nothing and leaves the watermark unset, so the next
    iteration starts over.  Otherwise the watermark is the [created_at] of
    the last frame yielded, which is a stored event that no stored event is
    newer than: the newest of the batch, not the oldest. *)
Theorem activity_first_watermark (w : world) :
  (activity_events w = [] → (activity_tick None w).1 = Ok ([], None))
  ∧ (activity_events w ≠ [] →
     ∃ frames newest,
       (activity_tick None w).1 = Ok (frames, Some (Event.created_at newest))
       ∧ last frames = Some newest
       ∧ newest ∈ activity_events w
       ∧ ∀ e, e ∈ activity_events w →
              Event.created_at e ≤ Event.created_at newest).
Proof.
  rewrite activity_tick_first_eq. split.
  - by intros ->.
  - intros Hne.
    destruct (newest_first (activity_events w) Hne) as (h & tl & -> & Hin & Hmax).
    exists (reverse (take 100 (h :: tl))), h. simpl.
    split_and!; try done. by rewrite last_reverse.
Qed.

Lemma activity_first_watermark_witness :
  ∃ frames newest,
    (activity_tick None Cases.two_events).1
    = Ok (frames, Some (Event.created_at newest))
    ∧ last frames = Some newest ∧ Event.created_at newest = 2.
Proof.
  destruct (activity_first_watermark Cases.two_events) as (_ & H).
  destruct H as (frames & newest & Hrun & Hlast & Hin & Hmax); [done|].
  exists frames, newest. split_and!; [done..|].
  assert (Event.created_at newest ≤ 2) as Hle.
  { repeat (apply elem_of_cons in Hin as [->|Hin]); [done..|].
    by apply elem_of_nil in Hin. }
  pose proof (Hmax (Event.Row 101%N "b" None None 2)) as Hge.
  simpl in Hge. assert (2 ≤ Event.created_at newest) by (apply Hge; right; left).
  lia.
Defined.

Lemma activity_stream_from_watermark t sleeps w :
  length (activity_event_generator_from (Some t) sleeps w).1 = S (length sleeps)
  ∧ Forall (Forall (λ e, t < Event.created_at e))
      (activity_event_generator_from (Some t) sleeps w).1.
Proof.
  revert w. induction sleeps as [|during sleeps IH]; intros w; simpl;
    rewrite activity_tick_since_eq.
  - split; [done|]. constructor; [|done].
    apply Forall_forall. intros e He. rewrite elem_of_reverse in He.
    rewrite merge_sort_Permutation in He.
    by apply list_elem_of_filter in He as [? _].
  - destruct (IH (during (log_statement (Statement (since_sql t) []) w)))
      as [Hlen Hall].
    destruct (activity_event_generator_from _ _ _) as [later w''].
    simpl in *. split; [by rewrite Hlen|]. constructor; [|done].
    apply Forall_forall. intros e He. rewrite elem_of_reverse in He.
    rewrite merge_sort_Permutation in He.
    by apply list_elem_of_filter in He as [? _].
Qed.

(** X12. A whole connection of the activity stream on a store that holds
    events when it opens: whatever the other requests do between
    iterations, the connection yields one batch per iteration, and after the
    first batch no frame carries an event whose [created_at] is at or
    before the newest [created_at] stored at the opening.  So no event of
    the first batch is sent again, and an event stored later with that same
    timestamp is never sent. *)
Theorem activity_stream_after_first (sleeps : list (world → world))
    (w : world) (newest : Event.row) :
  newest ∈ activity_events w →
  (∀ e, e ∈ activity_events w →
        Event.created_at e ≤ Event.created_at newest) →
  ∃ first later,
    (activity_event_generator sleeps w).1 = first :: later
    ∧ length later = length sleeps
    ∧ Forall (Forall (λ e, Event.created_at newest < Event.created_at e)) later.
Proof.
  intros Hin Hmax.
  assert (activity_events w ≠ []) as Hne
    by (intros Hnil; rewrite Hnil in Hin; by apply elem_of_nil in Hin).
  destruct (newest_first (activity_events w) Hne) as (h & tl & Hs & Hh & Hhmax).
  assert (Event.created_at h = Event.created_at newest) as Heq.
  { apply Z.le_antisymm; auto. }
  unfold activity_event_generator.
  destruct sleeps as [|during sleeps]; simpl;
    rewrite activity_tick_first_eq, Hs; simpl.
  - by eexists _, [].
  - rewrite Heq.
    destruct (activity_stream_from_watermark (Event.created_at newest) sleeps
                (during (log_statement
                   (Statement "SELECT * FROM activity_events ORDER BY created_at DESC LIMIT 100" [])
                   w))) as [Hlen Hall].
    destruct (activity_event_generator_from _ _ _) as [later w''].
    simpl in *. by eexists _, later.
Qed.

Lemma activity_stream_after_first_witness :
  ∃ first later,
    (activity_event_generator
       [λ w, (log_activity JsonLib.json_dumps "c" None None w).2; id]
       Cases.two_events).1 = first :: later
    ∧ length later = 2%nat.
Proof.
  destruct (activity_stream_after_first
              [λ w, (log_activity JsonLib.json_dumps "c" None None w).2; id]
              Cases.two_events (Event.Row 101%N "b" None None 2))
    as (first & later & Hrun & Hlen & _).
  - right. left.
  - intros e He. repeat (apply elem_of_cons in He as [->|He]); [done..|].
    by apply elem_of_nil in He.
  - by exists first, later.
Defined.

(** *** The task stream *)

Lemma task_event_generator_length sleeps w :
  length (task_event_generator sleeps w).1 = S (length sleeps).
Proof.
  revert w. induction sleeps as [|during sleeps IH]; intros w; [done|].
  cbn [task_event_generator length].
  unfold task_tick at 1. unfold bind, conn_fetch, ret. simpl.
  specialize (IH (during (log_statement
    (Statement "SELECT * FROM tasks ORDER BY updated_at DESC LIMIT 100" []) w))).
  destruct (task_event_generator sleeps _) as [later w'']. simpl in *.
  by rewrite IH.
Qed.

(** X13. An iteration of the task stream yields one frame: a snapshot of
    stored tasks, 100 of them or all when fewer are stored, most recently
    updated first, nothing left out being more recently updated than
    anything in it; it changes no task and no event.  A connection yields
    one such frame per iteration. *)
Theorem task_tick_snapshot (w : world) :
  (∃ rows rest,
     (task_tick w).1 = Ok (task_frame <$> rows)
     ∧ rows ++ rest ≡ₚ tasks w
     ∧ length rows = (100 `min` length (tasks w))%nat
     ∧ StronglySorted by_updated_desc rows
     ∧ (∀ x y, x ∈ rest → y ∈ rows → Task.updated_at x ≤ Task.updated_at y))
  ∧ tasks (task_tick w).2 = tasks w
  ∧ activity_events (task_tick w).2 = activity_events w
  ∧ (∀ sleeps, length (task_event_generator sleeps w).1 = S (length sleeps)).
Proof.
  split_and!; [|done|done|intros; apply task_event_generator_length].
  destruct (take_sorted by_updated_desc 100 (tasks w))
    as (Hperm & Hlen & Hsorted & Hcut).
  by eexists _, _.
Qed.

Lemma NoDup_fmap_eq {A B} (f : A → B) (l : list A) x y :
  NoDup (f <$> l) → x ∈ l → y ∈ l → f x = f y → x = y.
Proof.
  induction l as [|a l IH]; intros Hnd Hx Hy Hf.
  { by apply elem_of_nil in Hx. }
  rewrite fmap_cons in Hnd. apply NoDup_cons in Hnd as [Ha Hnd].
  apply elem_of_cons in Hx as [->|Hx]; apply elem_of_cons in Hy as [->|Hy].
  - done.
  - destruct Ha. rewrite Hf. by apply list_elem_of_fmap_2.
  - destruct Ha. rewrite <- Hf. by apply list_elem_of_fmap_2.
  - by apply IH.
Qed.

(** X14. An update shows at the head of the next snapshot.  When identifiers
    are unique in the table and a successful update answers with a row whose
    [updated_at] is later than that of every task stored before it, the
    next frame of the task stream starts with that row. *)
Theorem update_task_then_snapshot (UUID : string → option uuid)
    (refused : statement → bool)
    (task_id : string) (task : TaskUpdate.t) (w w' : world) (r : Task.row) :
  NoDup (Task.id <$> tasks w) →
  update_task UUID refused task_id task w = (Ok r, w') →
  (∀ x, x ∈ tasks w → Task.updated_at x < Task.updated_at r) →
  ∃ frames, (task_tick w').1 = Ok (task_frame r :: frames).
Proof.
  intros Hnd Hrun Hlater.
  pose proof (update_task_eq UUID refused task_id task w) as Heq. simpl in Heq.
  rewrite Heq in Hrun. clear Heq.
  destruct (supplied task _) as [|kv l] eqn:Hs; [done|].
  rewrite <- Hs in Hrun. clear Hs.
  destruct (UUID task_id) as [u|] eqn:Hu; [|done].
  destruct (refused _); [done|].
  rewrite task_by_id_updated in Hrun.
  rewrite (task_by_id_tasks u _ w) in Hrun
    by (simpl; by rewrite tasks_after_stamp).
  destruct (task_by_id u w) as [old|] eqn:Hold; [|done].
  simpl in Hrun. injection Hrun as Hr Hw'.
  apply task_by_id_Some in Hold as [Hold Hid].
  set (updates := supplied task _ ++ _) in *.
  assert (tasks w' = update_where_id u updates (tasks w)) as Htasks.
  { rewrite <- Hw'. simpl. by rewrite tasks_after_stamp. }
  unfold task_tick, bind, conn_fetch, ret. simpl. rewrite Htasks.
  destruct (merge_sort_first by_updated_desc r
              (update_where_id u updates (tasks w))) as (tl & ->).
  - rewrite <- Hr. unfold update_where_id.
    apply (list_elem_of_fmap_2' _ _ old); [done|].
    by rewrite bool_decide_true.
  - intros y Hy Hle. unfold update_where_id in Hy.
    apply list_elem_of_fmap in Hy as (x & -> & Hx).
    case_bool_decide as Hxu.
    + rewrite <- Hr. f_equal.
      apply (NoDup_fmap_eq Task.id (tasks w)); [done..|congruence].
    + apply Hlater in Hx. unfold by_updated_desc in Hle. lia.
  - by eexists.
Qed.

Lemma update_task_then_snapshot_witness :
  ∃ frames,
    (task_tick (update_task UuidLib.UUID Store.refused Cases.id7 Cases.rename Cases.board).2).1
    = Ok (task_frame (Task.Row 7%N "Fix the bug" None "backlog" 9 None 1 10 None)
            :: frames).
Proof.
  apply (update_task_then_snapshot UuidLib.UUID Store.refused Cases.id7 Cases.rename
           Cases.board).
  - compute_done.
  - by vm_compute.
  - intros x Hx. repeat (apply elem_of_cons in Hx as [->|Hx]); [done..|].
    by apply elem_of_nil in Hx.
Defined.

(** *** All operations *)

Lemma discard_world {A} (m : M A) w : (discard m w).2 = (m w).2.
Proof. unfold discard, bind. by destruct (m w) as [[a|e] w']. Qed.

Lemma get_kanban_tasks_world status agent_id w :
  ∃ q, (get_kanban_tasks status agent_id w).2 = log_statement q w
       ∧ sql q ∈ fixed_statements.
Proof.
  unfold get_kanban_tasks, conn_fetch.
  destruct (Py.truthy_opt status); [|destruct (Py.truthy_opt agent_id)];
    eexists; (split; [done|]); compute_done.
Qed.

Lemma get_task_world UUID task_id w :
  (get_task UUID task_id w).2 = w
  ∨ ∃ q, (get_task UUID task_id w).2 = log_statement q w
         ∧ sql q ∈ fixed_statements.
Proof.
  unfold get_task, bind, conn_fetch.
  destruct (UUID task_id) as [u|]; [|by left]. right.
  destruct (task_by_id u w); eexists; (split; [done|]); compute_done.
Qed.

Lemma get_activity_world limit event_type w :
  (get_activity limit event_type w).2 = w
  ∨ ∃ q, (get_activity limit event_type w).2 = log_statement q w
         ∧ sql q ∈ fixed_statements.
Proof.
  unfold get_activity, bind, check_limit, conn_fetch.
  case_bool_decide; simpl; [|by left]. right.
  destruct (Py.truthy_opt event_type); eexists; (split; [done|]); compute_done.
Qed.

(** X15. What the operations do to the two tables.  Only Create, Update and
    Delete can change a task; only Append can change the activity log, and
    it only adds at the end: whatever the operation, the events stored
    before are all still stored after, unchanged and in the same order.  The
    streams and the reads change nothing. *)
Theorem perform_tables (UUID : string → option uuid)
    (refused : statement → bool)
    (json_dumps : dict → string) (op : operation) (w : world) :
  (writes_tasks op = false →
   tasks (perform UUID refused json_dumps op w).2 = tasks w)
  ∧ (writes_events op = false →
     activity_events (perform UUID refused json_dumps op w).2 = activity_events w)
  ∧ activity_events w `prefix_of` activity_events (perform UUID refused json_dumps op w).2.
Proof.
  assert (activity_events (perform UUID refused json_dumps op w).2 = activity_events w
          ∨ ∃ e, writes_events op = true
                 ∧ activity_events (perform UUID refused json_dumps op w).2
                   = activity_events w ++ [e]) as Hev.
  { destruct op; unfold perform; rewrite discard_world.
    - left. by destruct (get_kanban_tasks_world status agent_id w) as (q & -> & _).
    - left. unfold create_task, bind, conn_execute, conn_fetch, uuid4. simpl.
      by destruct (task_by_id _ _).
    - left. by destruct (get_task_world UUID task_id w) as [->|(q & -> & _)].
    - left. apply update_task_events.
    - left. unfold delete_task, bind, conn_execute_status.
      destruct (UUID task_id); [|done]. simpl. by case_bool_decide.
    - left. by destruct (get_activity_world limit event_type w)
              as [->|(q & -> & _)].
    - right. by eexists.
    - by left.
    - left. destruct last_event_id as [t|].
      + by rewrite activity_tick_since_eq.
      + by rewrite activity_tick_first_eq. }
  split_and!.
  - intros Hop. destruct op; try done; unfold perform; rewrite discard_world.
    + by destruct (get_kanban_tasks_world status agent_id w) as (q & -> & _).
    + by destruct (get_task_world UUID task_id w) as [->|(q & -> & _)].
    + by destruct (get_activity_world limit event_type w) as [->|(q & -> & _)].
    + destruct last_event_id as [t|].
      * by rewrite activity_tick_since_eq.
      * by rewrite activity_tick_first_eq.
  - intros Hop. destruct Hev as [->|(e & He & _)]; [done|congruence].
  - destruct Hev as [->|(e & _ & ->)]; [done|]. by eexists.
Qed.

(** X16. What the operations send to the store.  Every statement an
    operation sends has a text that is a constant of the source, or the
    UPDATE text of a shape of request, or, for an iteration of the activity
    stream that starts with a watermark, the text with the rendering of that
    watermark spliced in.  No other text is ever built, so a string of a
    request reaches the store as a bound parameter only.  An operation
    sends at most two statements. *)
Theorem perform_statements (UUID : string → option uuid)
    (refused : statement → bool)
    (json_dumps : dict → string) (op : operation) (w : world) :
  ∃ new,
    sent (perform UUID refused json_dumps op w).2 = sent w ++ new
    ∧ (length new ≤ 2)%nat
    ∧ Forall (λ q, sql q ∈ fixed_statements
                   ∨ (∃ s, sql q = update_sql (update_columns s))
                   ∨ (∃ t, op = OpActivityTick (Some t) ∧ sql q = since_sql t))
        new.
Proof.
  destruct op; unfold perform; rewrite discard_world.
  - destruct (get_kanban_tasks_world status agent_id w) as (q & -> & Hq).
    exists [q]. split_and!; [done|simpl; lia|]. constructor; [by left|done].
  - unfold create_task, bind, conn_execute, conn_fetch, uuid4. simpl.
    destruct (task_by_id _ _); simpl; rewrite <- app_assoc;
      eexists; (split_and!; [done|simpl; lia|]);
      repeat (constructor; [left; compute_done|]); done.
  - destruct (get_task_world UUID task_id w) as [->|(q & -> & Hq)].
    + exists []. split_and!; [by rewrite app_nil_r|simpl; lia|done].
    + exists [q]. split_and!; [done|simpl; lia|]. constructor; [by left|done].
  - pose proof (update_task_eq UUID refused task_id task w) as Heq. simpl in Heq.
    rewrite Heq. clear Heq.
    destruct (supplied task _) as [|kv l] eqn:Hs.
    { exists []. split_and!; [by rewrite app_nil_r|simpl; lia|done]. }
    rewrite <- Hs. clear Hs.
    destruct (UUID task_id) as [u|]; simpl; [destruct (refused _); simpl|].
    + exists []. split_and!; [by rewrite sent_after_stamp, app_nil_r|simpl; lia|done].
    + rewrite sent_after_stamp, <- app_assoc.
      eexists. split_and!; [done|simpl; lia|].
      constructor; [right; left; by eexists|].
      constructor; [left; compute_done|done].
    + exists []. split_and!; [by rewrite sent_after_stamp, app_nil_r|simpl; lia|done].
  - unfold delete_task, bind, conn_execute_status.
    destruct (UUID task_id) as [u|]; simpl.
    + case_bool_decide; simpl;
        eexists; (split_and!; [done|simpl; lia|]);
        repeat (constructor; [left; compute_done|]); done.
    + exists []. split_and!; [by rewrite app_nil_r|simpl; lia|done].
  - destruct (get_activity_world limit event_type w) as [->|(q & -> & Hq)].
    + exists []. split_and!; [by rewrite app_nil_r|simpl; lia|done].
    + exists [q]. split_and!; [done|simpl; lia|]. constructor; [by left|done].
  - eexists. split_and!; [done|simpl; lia|].
    repeat (constructor; [left; compute_done|]); done.
  - eexists. split_and!; [done|simpl; lia|].
    repeat (constructor; [left; compute_done|]); done.
  - destruct last_event_id as [t|].
    + rewrite activity_tick_since_eq. eexists.
      split_and!; [done|simpl; lia|].
      constructor; [right; right; by exists t|done].
    + rewrite activity_tick_first_eq. eexists.
      split_and!; [done|simpl; lia|].
      repeat (constructor; [left; compute_done|]); done.
Qed.

(** *** Agent profiles *)

(** X17. Get-by-id on agent profiles.  The identifier is not parsed: it is
    the bound parameter of one query, whatever string it is.  When the
    driver or the store refuses it, nothing catches the error and the answer
    is 500, with nothing changed.  When it is accepted, the only failure is
    NotFound, exactly when no profile has that identifier; otherwise the
    answer is a stored profile with that identifier.  Tasks and events are
    never touched. *)
Theorem get_agent_profile_outcomes (profiles : list AgentProfile.row)
    (refused : statement → bool) (agent_id : string) (w : world) :
  (refused (Statement "SELECT * FROM agent_profiles WHERE agent_id = $1"
                      [VStr agent_id]) = true →
   get_agent_profile profiles refused agent_id w
   = (Raise (Http 500 "Internal Server Error"), w))
  ∧ (refused (Statement "SELECT * FROM agent_profiles WHERE agent_id = $1"
                        [VStr agent_id]) = false →
     ((∀ r, r ∈ profiles → AgentProfile.agent_id r ≠ agent_id) →
      failure (get_agent_profile profiles refused agent_id w) = Some NotFound)
     ∧ (∀ r, r ∈ profiles → AgentProfile.agent_id r = agent_id →
             ∃ r', (get_agent_profile profiles refused agent_id w).1 = Ok r'
                   ∧ r' ∈ profiles ∧ AgentProfile.agent_id r' = agent_id)
     ∧ sent (get_agent_profile profiles refused agent_id w).2
       = sent w ++ [Statement "SELECT * FROM agent_profiles WHERE agent_id = $1"
                              [VStr agent_id]])
  ∧ tasks (get_agent_profile profiles refused agent_id w).2 = tasks w
  ∧ activity_events (get_agent_profile profiles refused agent_id w).2
    = activity_events w.
Proof.
  unfold get_agent_profile, bind, conn_fetch.
  destruct (refused _); simpl; [done|].
  destruct (head (filter _ profiles)) as [r'|] eqn:Hhead; simpl.
  - apply head_Some_elem_of in Hhead.
    apply list_elem_of_filter in Hhead as [Hid Hin].
    split_and!; try done. intros _. split_and!; try done.
    + intros Hno. by destruct (Hno r' Hin).
    + intros r _ _. by exists r'.
  - apply head_None in Hhead.
    split_and!; try done. intros _. split_and!; try done.
    intros r Hr Hid.
    destruct (proj1 (filter_nil_iff _ profiles) Hhead r Hr Hid).
Qed.

Lemma get_agent_profile_outcomes_witness :
  failure (get_agent_profile Cases.profiles Store.refused "zz" Cases.board)
    = Some NotFound
  ∧ (get_agent_profile Cases.profiles Store.refused Cases.nul Cases.board).1
    = Raise (Http 500 "Internal Server Error")
  ∧ ∃ r', (get_agent_profile Cases.profiles Store.refused "a1" Cases.board).1
          = Ok r'
          ∧ r' ∈ Cases.profiles ∧ AgentProfile.agent_id r' = "a1".
Proof.
  split_and!.
  - destruct (get_agent_profile_outcomes Cases.profiles Store.refused "zz"
                Cases.board) as (_ & H & _).
    destruct H as (H & _); [done|].
    apply H. intros r Hr.
    repeat (apply elem_of_cons in Hr as [->|Hr]); [done..|].
    by apply elem_of_nil in Hr.
  - destruct (get_agent_profile_outcomes Cases.profiles Store.refused
                Cases.nul Cases.board) as (H & _).
    by rewrite H.
  - destruct (get_agent_profile_outcomes Cases.profiles Store.refused "a1"
                Cases.board) as (_ & H & _).
    destruct H as (_ & H & _); [done|].
    apply (H (AgentProfile.Row "a1" "Amy" None None 2 2)); [|done].
    right. left.
Defined.

(** X18. The List of agent profiles answers with every stored profile, each
    as often as it is stored, in the order of the store on names, whatever
    total and transitive order that is. *)
Theorem get_agent_profiles_sorted (profiles : list AgentProfile.row)
    (collation : relation string) `{!RelDecision collation} (w : world) :
  Total collation → Transitive collation →
  ∃ rows,
    (get_agent_profiles profiles collation w).1 = Ok rows
    ∧ rows ≡ₚ profiles
    ∧ StronglySorted (by_name collation) rows.
Proof.
  intros Htotal Htrans.
  assert (Total (by_name collation)) by (intros x y; apply Htotal).
  assert (Transitive (by_name collation))
    by (intros x y z; unfold by_name; apply Htrans).
  eexists. split; [done|]. split.
  - apply merge_sort_Permutation.
  - apply StronglySorted_merge_sort; done.
Qed.

Lemma get_agent_profiles_sorted_witness :
  ∃ rows,
    (get_agent_profiles Cases.profiles String.le Cases.board).1 = Ok rows
    ∧ rows ≡ₚ Cases.profiles
    ∧ StronglySorted (by_name String.le) rows.
Proof.
  apply (get_agent_profiles_sorted Cases.profiles String.le Cases.board);
    apply _.
Defined.
